(** * IBB integration-test scenarios of mellium/xmpp (Python peers)

    A shallow embedding of the Python side of the IBB integration tests:
    - [src/ibb/aioxmpp_integration_test.py]  (SendIBB, RecvIBB, TestProtocol)
    - [src/ibb/slixmpp_integration_test.py]  (SendIBB, RecvIBB)
    - [src/internal/integration/aioxmpp/aioxmpp_client.py] and
      [src/internal/integration/slixmpp/slixmpp_client.py] (Daemon.run_test).

    Each scenario's [run] coroutine together with the callbacks it
    registers is modelled as a deterministic reactive machine: the event
    loop delivers one event at a time (library callbacks, or the wake-up
    of the [run] task), the machine updates its state and emits actions.
    A run is logged as the interleaving of the events it received and the
    actions it performed. *)

From Stdlib Require Import ZArith List String Ascii Bool Lia.
Import ListNotations.
Open Scope Z_scope.

(** ** Python [str] and [bytes]

    A [str] is its list of code points, a [bytes]/[bytearray] its list of
    byte values (each in [0, 255]). *)

Definition ascii_cps (s : string) : list Z :=
  map (fun ch => Z.of_nat (nat_of_ascii ch)) (list_ascii_of_string s).

(** [str.encode('utf-8')], strict: a lone surrogate raises
    [UnicodeEncodeError] ([None]). *)
Definition utf8_encode_cp (c : Z) : option (list Z) :=
  if c <? 0 then None
  else if c <? 128 then Some [c]
  else if c <? 2048 then
    Some [192 + Z.shiftr c 6; 128 + Z.land c 63]
  else if c <? 65536 then
    if (55296 <=? c) && (c <=? 57343) then None
    else Some [224 + Z.shiftr c 12; 128 + Z.land (Z.shiftr c 6) 63;
               128 + Z.land c 63]
  else if c <? 1114112 then
    Some [240 + Z.shiftr c 18; 128 + Z.land (Z.shiftr c 12) 63;
          128 + Z.land (Z.shiftr c 6) 63; 128 + Z.land c 63]
  else None.

Fixpoint utf8_encode (s : list Z) : option (list Z) :=
  match s with
  | [] => Some []
  | c :: s' =>
      match utf8_encode_cp c, utf8_encode s' with
      | Some b, Some r => Some (b ++ r)
      | _, _ => None
      end
  end.

(** [bytes.decode('utf-8')] with the default [errors='strict']: the
    well-formed sequences of the Unicode standard (no overlong forms, no
    surrogates, nothing above U+10FFFF); anything else raises
    [UnicodeDecodeError] ([None]). *)
Definition in_range (lo hi b : Z) : bool := (lo <=? b) && (b <=? hi).
Definition cont (b : Z) : bool := in_range 128 191 b.

(** Allowed range of the second byte of a 3- or 4-byte sequence. *)
Definition second_ok (b1 b2 : Z) : bool :=
  if b1 =? 224 then in_range 160 191 b2
  else if b1 =? 237 then in_range 128 159 b2
  else if b1 =? 240 then in_range 144 191 b2
  else if b1 =? 244 then in_range 128 143 b2
  else cont b2.

Fixpoint utf8_decode (l : list Z) : option (list Z) :=
  match l with
  | [] => Some []
  | b1 :: r1 =>
      if in_range 0 127 b1 then
        option_map (cons b1) (utf8_decode r1)
      else if in_range 194 223 b1 then
        match r1 with
        | b2 :: r2 =>
            if cont b2 then
              option_map (cons (Z.shiftl (b1 - 192) 6 + (b2 - 128)))
                (utf8_decode r2)
            else None
        | [] => None
        end
      else if in_range 224 239 b1 then
        match r1 with
        | b2 :: b3 :: r3 =>
            if second_ok b1 b2 && cont b3 then
              option_map
                (cons (Z.shiftl (b1 - 224) 12 + Z.shiftl (b2 - 128) 6
                       + (b3 - 128)))
                (utf8_decode r3)
            else None
        | _ => None
        end
      else if in_range 240 244 b1 then
        match r1 with
        | b2 :: b3 :: b4 :: r4 =>
            if second_ok b1 b2 && cont b3 && cont b4 then
              option_map
                (cons (Z.shiftl (b1 - 240) 18 + Z.shiftl (b2 - 128) 12
                       + Z.shiftl (b3 - 128) 6 + (b4 - 128)))
                (utf8_decode r4)
            else None
        | _ => None
        end
      else None
  end.

(** ** The fixed payloads *)

(** The sender's literal
    ["Warren snores through the night like a bear—a bass to the treble of the loons."]:
    ASCII apart from the EM DASH (U+2014 = 8212). *)
Definition warren_text : list Z :=
  ascii_cps "Warren snores through the night like a bear" ++ [8212]
  ++ ascii_cps "a bass to the treble of the loons.".

(** The receiver's [bytes] literal
    [b"I feel a deep security in the single-mindedness of freight trains."]. *)
Definition freight_bytes : list Z :=
  ascii_cps "I feel a deep security in the single-mindedness of freight trains.".

(** The same sentence as a [str] (the spec's string). *)
Definition freight_text : list Z :=
  ascii_cps "I feel a deep security in the single-mindedness of freight trains.".

(** ** Events, actions and logs *)

(** Exceptions a run can raise. *)
Inductive exn :=
| EUnicodeDecode          (* bytes.decode('utf-8') on invalid bytes *)
| EUnicodeEncode          (* str.encode('utf-8') on a lone surrogate *)
| EIq (cause : string)    (* slixmpp: the close request is answered by an error *)
| ETimeout.               (* asyncio.TimeoutError from slixmpp's [wait_until] *)

(** The rendezvous markers: [<startibb/>] and [<doneibb/>]. *)
Inductive signal := Start | Done.

(** What the event loop delivers to a role. *)
Inductive event :=
| EvBegin                               (* [run] is invoked *)
| EvWake                                (* the [run] task is resumed *)
| EvOpened                              (* the peer accepted our open request *)
| EvOffer (from : string) (sid : string)(* an incoming IBB open request *)
| EvData (chunk : list Z)               (* a data block on the IBB stream *)
| EvClosed (err : option string)        (* close completion, with error or not *)
| EvEnd.                                (* slixmpp's [ibb_stream_end] event *)

(** What a role does. [OStreamUp] marks the moment its IBB stream exists
    (so that incoming data reaches it), [ODecode] the reading of its byte
    accumulator by [.decode('utf-8')]. *)
Inductive action :=
| OOpen (to : string)
| OExpect (from : string) (sid : option string)
| OAccept (from : string) (sid : string)
| OStreamUp
| OWrite (bytes : list Z)
| OClose
| ODecode
| OSend (to : string) (tag : signal) (body : option (list Z))
| OPrintErr (msg : string)
| OExit (code : Z)
| ORaise (e : exn).

Inductive entry := LIn (ev : event) | LOut (a : action).

(** Where the [run] coroutine is. *)
Inductive pc_t :=
| PInit | PAwaitOpen | PAwaitStartSent | PAwaitSession | PAwaitConn
| PAwaitSendall | PAwaitClosed | PAwaitClose | PAwaitEnd | PAwaitDoneSent
| PFinished | PFailed (e : exn) | PExited (code : Z).

(** Command-line arguments of a role: [-j] and [-sid]. *)
Record cfg := mkcfg { peer : string; exp_sid : option string }.

Record st := mkst {
  pc : pc_t;
  acc : list Z;                   (* protocol.data / self.data *)
  up : bool;                      (* an IBB stream of the role exists *)
  rq : list (list Z);             (* slixmpp: the stream's recv_queue *)
  hreg : bool;                    (* slixmpp: ibb_stream_data handler registered *)
  opened : bool;                  (* the session / conn future is done *)
  closing : bool;                 (* slixmpp: conn.close() issued *)
  closed : option (option string);(* closed_fut / conn.close() result *)
  ended : bool                    (* slixmpp: self.end is done *)
}.

Definition set_pc (s : st) p :=
  mkst p s.(acc) s.(up) s.(rq) s.(hreg) s.(opened) s.(closing) s.(closed) s.(ended).
Definition set_acc (s : st) a :=
  mkst s.(pc) a s.(up) s.(rq) s.(hreg) s.(opened) s.(closing) s.(closed) s.(ended).
Definition set_up (s : st) :=
  mkst s.(pc) s.(acc) true s.(rq) s.(hreg) s.(opened) s.(closing) s.(closed) s.(ended).
Definition set_rq (s : st) q :=
  mkst s.(pc) s.(acc) s.(up) q s.(hreg) s.(opened) s.(closing) s.(closed) s.(ended).
Definition set_hreg (s : st) :=
  mkst s.(pc) s.(acc) s.(up) s.(rq) true s.(opened) s.(closing) s.(closed) s.(ended).
Definition set_opened (s : st) :=
  mkst s.(pc) s.(acc) s.(up) s.(rq) s.(hreg) true s.(closing) s.(closed) s.(ended).
Definition set_closing (s : st) :=
  mkst s.(pc) s.(acc) s.(up) s.(rq) s.(hreg) s.(opened) true s.(closed) s.(ended).
Definition set_closed (s : st) c :=
  mkst s.(pc) s.(acc) s.(up) s.(rq) s.(hreg) s.(opened) s.(closing) (Some c) s.(ended).
Definition set_ended (s : st) :=
  mkst s.(pc) s.(acc) s.(up) s.(rq) s.(hreg) s.(opened) s.(closing) s.(closed) true.

Definition opt_eqb (a : option string) (b : string) : bool :=
  match a with Some x => String.eqb x b | None => false end.

(** ** Shared pieces of the scenarios *)

(** Building the [Done] message: [body = <acc>.decode('utf-8')], then the
    message is sent; [next] is where [run] is afterwards. *)
Definition send_done (c : cfg) (s : st) (next : pc_t) : st * list action :=
  match utf8_decode s.(acc) with
  | None => (set_pc s (PFailed EUnicodeDecode), [ODecode; ORaise EUnicodeDecode])
  | Some b => (set_pc s next, [ODecode; OSend c.(peer) Done (Some b)])
  end.

(** aioxmpp, after [e = await protocol.closed_fut]:
    [if e is not None: print(...); sys.exit(1)], then the [Done] message
    is sent with [await self.client.send(msg)]. *)
Definition aio_after_closed (c : cfg) (s : st) (e : option string) : st * list action :=
  match e with
  | Some m =>
      (set_pc s (PExited 1),
       [OPrintErr ("error awaiting connection close: " ++ m)%string; OExit 1])
  | None => send_done c s PAwaitDoneSent
  end.

(** aioxmpp, [e = await protocol.closed_fut]: a done future does not
    suspend the task. *)
Definition aio_await_closed (c : cfg) (s : st) : st * list action :=
  match s.(closed) with
  | Some e => aio_after_closed c s e
  | None => (set_pc s PAwaitClosed, [])
  end.

(** [TestProtocol.data_received]: [self.data += data]; and
    [TestProtocol.connection_lost]: [self.closed_fut.set_result(e)] (a
    second [set_result] raises inside the callback and changes nothing). *)
Definition aio_callbacks (s : st) (ev : event) : option st :=
  match ev with
  | EvData d => Some (if s.(up) then set_acc s (s.(acc) ++ d) else s)
  | EvClosed e =>
      Some (if s.(up) then match s.(closed) with
                           | None => set_closed s e
                           | Some _ => s end
            else s)
  | _ => None
  end.

(** slixmpp: the stream puts each block on its [recv_queue] and fires
    [ibb_stream_data]; the handler (when registered) runs
    [self.data.extend(stream.recv_queue.get_nowait())]. *)
Definition slix_data (s : st) (d : list Z) : st :=
  if s.(up) then
    let q := s.(rq) ++ [d] in
    if s.(hreg) then
      match q with
      | x :: q' => set_rq (set_acc s (s.(acc) ++ x)) q'
      | [] => set_rq s q
      end
    else set_rq s q
  else s.

(** ** aioxmpp [SendIBB.run] *)
Definition aio_send_step (c : cfg) (s : st) (ev : event) : st * list action :=
  match aio_callbacks s ev with
  | Some s' => (s', [])
  | None =>
      match s.(pc), ev with
      | PInit, EvBegin =>
          (* transport, protocol = await service.open_session(TestProtocol, j) *)
          (set_pc s PAwaitOpen, [OOpen c.(peer)])
      | PAwaitOpen, EvOpened =>
          if s.(opened) then (s, []) else (set_opened (set_up s), [OStreamUp])
      | PAwaitOpen, EvWake =>
          if s.(opened) then
            (* transport.write("Warren ...".encode('utf-8')); transport.close() *)
            match utf8_encode warren_text with
            | Some p =>
                let k := aio_await_closed c s in
                (fst k, OWrite p :: OClose :: snd k)
            | None => (set_pc s (PFailed EUnicodeEncode), [ORaise EUnicodeEncode])
            end
          else (s, [])
      | PAwaitClosed, EvWake =>
          match s.(closed) with
          | Some e => aio_after_closed c s e
          | None => (s, [])
          end
      | PAwaitDoneSent, EvWake => (set_pc s PFinished, [])
      | _, _ => (s, [])
      end
  end.

(** ** aioxmpp [RecvIBB.run] *)
Definition aio_recv_step (c : cfg) (s : st) (ev : event) : st * list action :=
  match aio_callbacks s ev with
  | Some s' => (s', [])
  | None =>
      match s.(pc), ev with
      | PInit, EvBegin =>
          (* msg.startibb = StartIBB(); await self.client.send(msg) *)
          (set_pc s PAwaitStartSent, [OSend c.(peer) Start None])
      | PAwaitStartSent, EvWake =>
          (* await service.expect_session(TestProtocol, j, sid) *)
          (set_pc s PAwaitSession, [OExpect c.(peer) c.(exp_sid)])
      | PAwaitSession, EvOffer f sid =>
          (* the service accepts only the expected (sid, peer) pair, once *)
          if negb s.(opened) && String.eqb f c.(peer) && opt_eqb c.(exp_sid) sid
          then (set_opened (set_up s), [OAccept f sid; OStreamUp])
          else (s, [])
      | PAwaitSession, EvWake =>
          if s.(opened) then
            (* transport.write(b"I feel ...") *)
            let k := aio_await_closed c s in
            (fst k, OWrite freight_bytes :: snd k)
          else (s, [])
      | PAwaitClosed, EvWake =>
          match s.(closed) with
          | Some e => aio_after_closed c s e
          | None => (s, [])
          end
      | PAwaitDoneSent, EvWake => (set_pc s PFinished, [])
      | _, _ => (s, [])
      end
  end.

(** ** slixmpp [SendIBB.run] *)
Definition slix_send_step (c : cfg) (s : st) (ev : event) : st * list action :=
  match ev with
  | EvData d => (slix_data s d, [])
  | EvClosed e =>
      (* the answer to the close request *)
      (if s.(closing) then
         match s.(closed) with None => set_closed s e | Some _ => s end
       else s, [])
  | _ =>
      match s.(pc), ev with
      | PInit, EvBegin =>
          (* add_event_handler("ibb_stream_data", ...);
             conn = await ibb.open_stream(j) *)
          (set_pc (set_hreg s) PAwaitOpen, [OOpen c.(peer)])
      | PAwaitOpen, EvOpened =>
          if s.(opened) then (s, []) else (set_opened (set_up s), [OStreamUp])
      | PAwaitOpen, EvWake =>
          if s.(opened) then
            (* await conn.sendall("Warren ...".encode('utf-8')) *)
            match utf8_encode warren_text with
            | Some p => (set_pc s PAwaitSendall, [OWrite p])
            | None => (set_pc s (PFailed EUnicodeEncode), [ORaise EUnicodeEncode])
            end
          else (s, [])
      | PAwaitSendall, EvWake =>
          (* await conn.close() *)
          (set_pc (set_closing s) PAwaitClose, [OClose])
      | PAwaitClose, EvWake =>
          match s.(closed) with
          | Some None =>
              (* make_message(mto=j, mbody=self.data.decode('utf-8'));
                 appendxml(doneibb); msg.send() *)
              send_done c s PFinished
          | Some (Some m) => (set_pc s (PFailed (EIq m)), [ORaise (EIq m)])
          | None => (s, [])
          end
      | _, _ => (s, [])
      end
  end.

(** ** slixmpp [RecvIBB]: [configure] registers the plugin with
    [auto_accept] and the [ibb_stream_data], [ibb_stream_end] and
    [ibb_stream_start] handlers; [run] follows. *)
Definition slix_recv_step (c : cfg) (s : st) (ev : event) : st * list action :=
  match ev with
  | EvData d => (slix_data s d, [])
  | EvOffer f sid =>
      (* auto_accept; ibb_stream_start: self.conn.set_result(conn) *)
      (set_opened (set_up s), [OAccept f sid; OStreamUp])
  | EvEnd =>
      (* ibb_stream_end: self.end.set_result(True) *)
      (if s.(up) then set_ended s else s, [])
  | _ =>
      match s.(pc), ev with
      | PInit, EvBegin =>
          (* make_message(mto=j, mbody=self.data.decode('utf-8'));
             appendxml(startibb); msg.send(); conn = await self.conn *)
          match utf8_decode s.(acc) with
          | None => (set_pc s (PFailed EUnicodeDecode), [ODecode; ORaise EUnicodeDecode])
          | Some b =>
              if s.(opened)
              then (set_pc s PAwaitSendall,
                    [ODecode; OSend c.(peer) Start (Some b); OWrite freight_bytes])
              else (set_pc s PAwaitConn, [ODecode; OSend c.(peer) Start (Some b)])
          end
      | PAwaitConn, EvWake =>
          (* await conn.sendall(b"I feel ...") *)
          if s.(opened) then (set_pc s PAwaitSendall, [OWrite freight_bytes])
          else (s, [])
      | PAwaitSendall, EvWake =>
          (* await self.end *)
          if s.(ended) then send_done c s PFinished else (set_pc s PAwaitEnd, [])
      | PAwaitEnd, EvWake =>
          if s.(ended) then send_done c s PFinished else (s, [])
      | _, _ => (s, [])
      end
  end.

(** ** Roles and runs *)
Inductive role := AioSend | AioRecv | SlixSend | SlixRecv.

Definition step (r : role) : cfg -> st -> event -> st * list action :=
  match r with
  | AioSend => aio_send_step
  | AioRecv => aio_recv_step
  | SlixSend => slix_send_step
  | SlixRecv => slix_recv_step
  end.

(** The state right after [configure]: only slixmpp's [RecvIBB] has its
    data handler registered before [run]. *)
Definition init (r : role) : st :=
  mkst PInit [] false [] (match r with SlixRecv => true | _ => false end)
       false false None false.

Definition extend (r : role) (c : cfg) (x : st * list entry) (ev : event)
  : st * list entry :=
  let '(s, l) := x in
  let '(s', outs) := step r c s ev in
  (s', l ++ LIn ev :: map LOut outs).

Definition exec (r : role) (c : cfg) (evs : list event) : st * list entry :=
  fold_left (extend r c) evs (init r, []).

(** The bytes delivered to the role's IBB stream, in the order of the log:
    the data blocks that arrive once a stream of the role exists. *)
Fixpoint received_from (u : bool) (l : list entry) : list Z :=
  match l with
  | [] => []
  | LIn (EvData d) :: l' => (if u then d else []) ++ received_from u l'
  | LOut OStreamUp :: l' => received_from true l'
  | _ :: l' => received_from u l'
  end.

Definition received (l : list entry) : list Z := received_from false l.

Definition ex_cfg : cfg := mkcfg "gopher@example.net"%string (Some "abc123"%string).

(** ** The log of a run *)

Fixpoint up_from (u : bool) (l : list entry) : bool :=
  match l with
  | [] => u
  | LOut OStreamUp :: l' => up_from true l'
  | _ :: l' => up_from u l'
  end.

Definition ev_data (ev : event) : list Z :=
  match ev with EvData d => d | _ => [] end.

(** The slixmpp data handler is registered whenever a stream exists. *)
Definition hok (r : role) (s : st) : Prop :=
  match r with
  | SlixSend => (s.(pc) = PInit /\ s.(up) = false) \/ s.(hreg) = true
  | SlixRecv => s.(hreg) = true
  | _ => True
  end.

(** The bytes of the sender's payload, [utf8_encode warren_text]. *)
Definition warren_bytes : list Z :=
  Eval vm_compute in
    match utf8_encode warren_text with Some b => b | None => [] end.

(** The text each role puts on its stream, as the spec words it. *)
Definition payload_text (r : role) : list Z :=
  match r with
  | AioSend | SlixSend => warren_text
  | AioRecv | SlixRecv => freight_text
  end.

(** The operations of a log on the role's stream, and its [Done]. *)
Definition stream_op (e : entry) : list action :=
  match e with
  | LOut (OWrite x) => [OWrite x]
  | LOut OClose => [OClose]
  | LOut (OSend t Done b) => [OSend t Done b]
  | _ => []
  end.

Definition stream_ops (l : list entry) : list action := flat_map stream_op l.

(** Where a sender's [run] is determines what it has done on the stream. *)
Definition sender_inv (c : cfg) (s : st) (l : list entry) : Prop :=
  match s.(pc) with
  | PInit | PAwaitOpen => stream_ops l = []
  | PAwaitSendall => stream_ops l = [OWrite warren_bytes]
  | PAwaitClosed | PAwaitClose | PExited _ | PFailed _ =>
      stream_ops l = [OWrite warren_bytes; OClose]
  | PAwaitDoneSent | PFinished =>
      exists b, stream_ops l = [OWrite warren_bytes; OClose; OSend c.(peer) Done b]
  | _ => False
  end.

(** ** [Daemon.run_test] of the two bindings *)

(** How a scenario body ends. *)
Inductive outcome := ONormal | ORaised (e : exn) | OSysExit (code : Z) | OCancelled.

(** What the runner does with the client connection. *)
Inductive dact := DConnect | DRunBody | DLogExc | DRelease.

(** The outcome of a role's [run], once it has returned, raised or exited. *)
Definition run_outcome (s : st) : option outcome :=
  match s.(pc) with
  | PFinished => Some ONormal
  | PFailed e => Some (ORaised e)
  | PExited n => Some (OSysExit n)
  | _ => None
  end.

(** aioxmpp: [async with self.client.connected(): await self.run()].
    [None] as the body's outcome means it is still running; whatever way
    it ends, [__aexit__] runs once and the outcome propagates. *)
Definition aio_run_test (body : option outcome) : list dact * option outcome :=
  match body with
  | None => ([DConnect; DRunBody], None)
  | Some o => ([DConnect; DRunBody; DRelease], Some o)
  end.

(** What slixmpp delivers to [run_test] after [connect]; [DTimeout] is the
    deadline of [wait_until('session_end')], whose [timeout] defaults to
    30 seconds, passing. *)
Inductive devent := DSessionStart | DBodyDone (o : outcome) | DSessionEnd | DTimeout.

(** slixmpp: [run_callback] is a coroutine handler of [session_start];
    slixmpp runs it as a task whose [Exception]s are caught and logged
    ([self.exception(e)]); [run_test] itself only
    [await self.client.wait_until('session_end')], which returns when
    [session_end] fires and raises [asyncio.TimeoutError] when its default
    30 second timeout passes first. *)
Fixpoint slix_wait (evs : list devent) : list dact * option outcome :=
  match evs with
  | [] => ([], None)
  | DSessionStart :: evs' =>
      let k := slix_wait evs' in (DRunBody :: fst k, snd k)
  | DBodyDone o :: evs' =>
      match o with
      | ORaised _ => let k := slix_wait evs' in (DLogExc :: fst k, snd k)
      | OSysExit n => ([], Some (OSysExit n))
      | _ => slix_wait evs'
      end
  | DSessionEnd :: _ => ([], Some ONormal)
  | DTimeout :: _ => ([], Some (ORaised ETimeout))
  end.

Definition slix_run_test (evs : list devent) : list dact * option outcome :=
  let k := slix_wait evs in (DConnect :: fst k, snd k).

(** Exit status of [asyncio.run(run_test(cls))] ending with an outcome. *)
Definition exit_status (o : outcome) : Z :=
  match o with
  | ONormal => 0
  | ORaised _ => 1
  | OSysExit n => n
  | OCancelled => 1
  end.

Definition aio_recv_started (p : pc_t) : Prop := p <> PInit.

Definition slix_recv_started (p : pc_t) : Prop :=
  p = PAwaitConn \/ p = PAwaitSendall \/ p = PAwaitEnd \/ p = PFinished.

(** The events of a complete aioxmpp receiver run. *)
Definition happy_evs : list event :=
  [EvBegin; EvWake; EvOffer "gopher@example.net" "abc123"; EvWake;
   EvData (ascii_cps "Hi"); EvClosed None; EvWake]%string.

(** ** Counting what a run does *)

(** The actions of a log, in order. *)
Definition actions (l : list entry) : list action :=
  flat_map (fun e => match e with LOut a => [a] | LIn _ => [] end) l.

(** Kinds of action. *)
Definition is_done (a : action) : bool :=
  match a with OSend _ Done _ => true | _ => false end.
Definition is_start (a : action) : bool :=
  match a with OSend _ Start _ => true | _ => false end.
Definition is_request (a : action) : bool :=
  match a with OOpen _ | OExpect _ _ => true | _ => false end.
Definition is_write (a : action) : bool :=
  match a with OWrite _ => true | _ => false end.
Definition is_close (a : action) : bool :=
  match a with OClose => true | _ => false end.
Definition is_accept (a : action) : bool :=
  match a with OAccept _ _ => true | _ => false end.

(** Where [run] is once it has sent [Done], sent [Start], asked for a
    stream, written its payload, or closed its stream. *)
Definition done_phase (p : pc_t) : bool :=
  match p with PAwaitDoneSent | PFinished => true | _ => false end.
Definition started_phase (p : pc_t) : bool :=
  match p with PInit => false | _ => true end.
Definition requested_phase (p : pc_t) : bool :=
  match p with PInit | PAwaitStartSent => false | _ => true end.
Definition wrote_phase (p : pc_t) : bool :=
  match p with PInit | PAwaitOpen | PAwaitStartSent | PAwaitSession | PAwaitConn => false
  | _ => true end.
Definition closed_phase (p : pc_t) : bool :=
  match p with PInit | PAwaitOpen | PAwaitStartSent | PAwaitSession | PAwaitConn
  | PAwaitSendall => false | _ => true end.

(** slixmpp's [session_start] handler runs the body; [wait_until] returns
    on [session_end] or raises when its 30 second timeout passes, and
    [sys.exit] in the body ends the process. *)
Definition is_session_start (e : devent) : bool :=
  match e with DSessionStart => true | _ => false end.
Definition ends_wait (e : devent) : bool :=
  match e with DSessionEnd | DTimeout | DBodyDone (OSysExit _) => true | _ => false end.
Definition is_run (d : dact) : bool :=
  match d with DRunBody => true | _ => false end.

(** ** Sample runs *)

Example utf8_dash : utf8_encode [8212] = Some [226; 128; 148].
Proof. reflexivity. Qed.

Example utf8_dash_back : utf8_decode [226; 128; 148] = Some [8212].
Proof. reflexivity. Qed.

Example utf8_overlong : utf8_decode [192; 128] = None.
Proof. reflexivity. Qed.

Example happy_recv :
  let '(s, l) := exec AioRecv ex_cfg
    [EvBegin; EvWake; EvOffer "gopher@example.net" "abc123"; EvWake;
     EvData (ascii_cps "Hi"); EvClosed None; EvWake]%string in
  s.(pc) = PAwaitDoneSent /\
  In (LOut (OSend "gopher@example.net"%string Done (Some (ascii_cps "Hi")))) l.
Proof. vm_compute. split; [reflexivity | tauto]. Qed.

Lemma received_from_app u l m :
  received_from u (l ++ m) = received_from u l ++ received_from (up_from u l) m.
Proof.
  revert u; induction l as [|[ev|a] l IH]; intro u; simpl; [reflexivity| |].
  - destruct ev; rewrite ?IH, ?app_assoc; reflexivity.
  - destruct a; apply IH.
Qed.

Lemma received_from_outs u outs : received_from u (map LOut outs) = [].
Proof.
  revert u; induction outs as [|a outs IH]; intro u; simpl; [reflexivity|].
  destruct a; apply IH.
Qed.

Lemma up_from_app u l m : up_from u (l ++ m) = up_from (up_from u l) m.
Proof.
  revert u; induction l as [|[ev|a] l IH]; intro u; simpl; [reflexivity| |].
  - apply IH.
  - destruct a; apply IH.
Qed.

Lemma exec_snoc r c evs ev : exec r c (evs ++ [ev]) = extend r c (exec r c evs) ev.
Proof. unfold exec. rewrite fold_left_app. reflexivity. Qed.

(** Every action of a log was emitted by one step, from a reachable state. *)
Lemma log_split r c evs pre a post :
  snd (exec r c evs) = pre ++ LOut a :: post ->
  exists evs0 ev rest o1 o2,
    evs = evs0 ++ ev :: rest /\
    snd (step r c (fst (exec r c evs0)) ev) = o1 ++ a :: o2 /\
    pre = snd (exec r c evs0) ++ LIn ev :: map LOut o1.
Proof.
  revert pre a post; induction evs as [|ev evs IH] using rev_ind;
    intros pre a post H.
  - destruct pre; discriminate.
  - rewrite exec_snoc in H. unfold extend in H.
    destruct (exec r c evs) as [s l] eqn:E.
    destruct (step r c s ev) as [s' outs] eqn:S. simpl in H.
    apply app_eq_app in H as [m [[Hl Hm] | [Hp Hm]]].
    + destruct m as [|x m]; simpl in Hm; inversion Hm; subst.
      destruct (IH pre a m eq_refl) as (evs0 & ev0 & rest & o1 & o2 & -> & H1 & H2).
      exists evs0, ev0, (rest ++ [ev]), o1, o2.
      rewrite <- app_assoc. simpl. auto.
    + destruct m as [|x m]; simpl in Hm; inversion Hm; subst.
      apply map_eq_app in H1 as (o1 & o2 & -> & H1 & H2).
      destruct o2 as [|a' o2]; [discriminate|]. inversion H2; subst.
      exists evs, ev, [], o1, o2. rewrite E. simpl. rewrite S. simpl.
      auto.
Qed.

Ltac split_matches H :=
  repeat match type of H with
  | context [match ?x with _ => _ end] => destruct x eqn:?
  end.

Ltac unfold_step H :=
  unfold step, aio_send_step, aio_recv_step, slix_send_step, slix_recv_step,
    aio_callbacks, aio_await_closed, aio_after_closed, send_done, slix_data,
    set_pc, set_acc, set_up, set_rq, set_hreg, set_opened, set_closing,
    set_closed, set_ended in H.

(** What one step does to the accumulator and the stream flag. *)
Lemma step_frame r c s ev s' outs :
  step r c s ev = (s', outs) -> s.(rq) = [] -> hok r s ->
  s'.(acc) = s.(acc) ++ (if s.(up) then ev_data ev else []) /\
  s'.(up) = up_from s.(up) (map LOut outs) /\ s'.(rq) = [] /\ hok r s'.
Proof.
  destruct s as [p a u q h o cl cd e]; simpl; intros H Hq Hh; subst q.
  destruct r, ev; unfold hok in *; unfold_step H; simpl in *;
    split_matches H; inversion H; subst; simpl in *;
    try destruct u; simpl; rewrite ?app_nil_r; intuition congruence.
Qed.

Lemma exec_inv r c evs :
  (fst (exec r c evs)).(acc) = received (snd (exec r c evs)) /\
  (fst (exec r c evs)).(up) = up_from false (snd (exec r c evs)) /\
  (fst (exec r c evs)).(rq) = [] /\ hok r (fst (exec r c evs)).
Proof.
  induction evs as [|ev evs IH] using rev_ind.
  - destruct r; simpl; intuition.
  - rewrite exec_snoc. unfold extend.
    destruct (exec r c evs) as [s l]. simpl in IH.
    destruct IH as (Ha & Hu & Hq & Hh).
    destruct (step r c s ev) as [s' outs] eqn:S.
    destruct (step_frame _ _ _ _ _ _ S Hq Hh) as (A & U & Q & H'). simpl.
    unfold received. rewrite received_from_app, up_from_app, <- Hu.
    repeat split; auto.
    + rewrite A, Ha. f_equal. destruct ev; simpl; rewrite received_from_outs;
        destruct (up s); simpl; rewrite ?app_nil_r; reflexivity.
Qed.

Lemma exec_app r c evs rest :
  exec r c (evs ++ rest) = fold_left (extend r c) rest (exec r c evs).
Proof. unfold exec. apply fold_left_app. Qed.

(** Only the steps that build the [Done] message emit it. *)
Lemma step_done r c s ev s' outs to body :
  step r c s ev = (s', outs) -> In (OSend to Done body) outs ->
  ev_data ev = [] /\ exists b, body = Some b /\ utf8_decode s.(acc) = Some b.
Proof.
  destruct s as [p a u q h o cl cd e]; simpl; intros H Hin.
  destruct r, ev; unfold_step H; simpl in *; split_matches H;
    inversion H; subst; simpl in Hin;
    repeat match type of Hin with _ \/ _ => destruct Hin as [Hin|Hin] end;
    try discriminate; try contradiction;
    inversion Hin; subst; eauto.
Qed.

(** The [.decode('utf-8')] that builds a message: on invalid bytes it is
    the last thing the step does, and [run] has failed. *)
Lemma step_decode r c s ev s' outs :
  step r c s ev = (s', outs) -> In ODecode outs ->
  ev_data ev = [] /\
  (utf8_decode s.(acc) = None ->
   exists o, outs = o ++ [ODecode; ORaise EUnicodeDecode] /\ ~ In ODecode o /\
             s'.(pc) = PFailed EUnicodeDecode).
Proof.
  destruct s as [p a u q h o cl cd e]; simpl; intros H Hin.
  destruct r, ev; unfold_step H; simpl in *; split_matches H;
    inversion H; subst; simpl in Hin;
    repeat match type of Hin with _ \/ _ => destruct Hin as [Hin|Hin] end;
    try discriminate; try contradiction; split; auto; intro Hd;
    try congruence;
    solve [ exists []; simpl; auto
          | exists [OWrite freight_bytes]; simpl; intuition discriminate
          | eexists [OWrite _; OClose]; simpl; intuition discriminate ].
Qed.

Lemma step_failed r c s ev s' outs e :
  step r c s ev = (s', outs) -> s.(pc) = PFailed e -> s'.(pc) = PFailed e.
Proof.
  destruct s as [p a u q h o cl cd e0]; simpl; intros H Hp; subst p.
  destruct r, ev; unfold_step H; simpl in *; split_matches H;
    inversion H; subst; reflexivity.
Qed.

Lemma fold_extend_log r c rest x :
  exists m, snd (fold_left (extend r c) rest x) = snd x ++ m.
Proof.
  revert x; induction rest as [|ev rest IH]; intro x.
  - exists []. rewrite app_nil_r. reflexivity.
  - change (fold_left (extend r c) (ev :: rest) x)
      with (fold_left (extend r c) rest (extend r c x ev)).
    destruct (IH (extend r c x ev)) as [m Hm]. rewrite Hm.
    destruct x as [s l]. unfold extend. destruct (step r c s ev) as [s' outs].
    simpl. eexists. rewrite <- app_assoc. reflexivity.
Qed.

Lemma fold_extend_failed r c rest x e :
  (fst x).(pc) = PFailed e -> (fst (fold_left (extend r c) rest x)).(pc) = PFailed e.
Proof.
  revert x; induction rest as [|ev rest IH]; intros [s l] Hp; simpl in *; auto.
  apply IH. unfold extend. destruct (step r c s ev) as [s' outs] eqn:S. simpl.
  eapply step_failed; eauto.
Qed.

Lemma received_step_prefix l ev o1 :
  ev_data ev = [] -> received (l ++ LIn ev :: map LOut o1) = received l.
Proof.
  intro He. unfold received. rewrite received_from_app.
  destruct ev; simpl in *; subst; rewrite received_from_outs;
    destruct (up_from false l); simpl; rewrite ?app_nil_r; reflexivity.
Qed.

(** Where a [Done] message stands in a log, its body is the decoding of
    the bytes received up to there. *)
Lemma done_in_log r c evs pre to body post :
  snd (exec r c evs) = pre ++ LOut (OSend to Done body) :: post ->
  exists b, body = Some b /\ utf8_decode (received pre) = Some b.
Proof.
  intro H. apply log_split in H as (evs0 & ev & rest & o1 & o2 & _ & Hs & ->).
  destruct (step r c (fst (exec r c evs0)) ev) as [s' outs] eqn:S. simpl in Hs.
  subst outs. destruct (step_done _ _ _ _ _ _ to body S) as (He & b & Hb & Hd).
  { apply in_or_app. simpl. auto. }
  exists b. split; auto. rewrite received_step_prefix by exact He.
  destruct (exec_inv r c evs0) as (Ha & _). rewrite <- Ha. exact Hd.
Qed.

Lemma split_unique {A} (o1 o2 o : list A) x y :
  x <> y -> o1 ++ x :: o2 = o ++ [x; y] -> ~ In x o -> o1 = o /\ o2 = [y].
Proof.
  intro Hxy.
  revert o; induction o1 as [|z o1 IH]; intros o Heq Hn; destruct o as [|w o].
  - simpl in Heq. inversion Heq. auto.
  - simpl in Heq. inversion Heq; subst. exfalso. apply Hn. simpl. auto.
  - simpl in Heq. inversion Heq; subst.
    destruct o1 as [|? [|? ?]]; simpl in *; inversion H1; subst; congruence.
  - simpl in Heq. inversion Heq; subst.
    assert (~ In x o) as Hn' by (intro; apply Hn; simpl; auto).
    destruct (IH o H1 Hn') as [-> ->]; auto.
Qed.

Lemma exec_cons_split r c evs0 ev rest :
  exec r c (evs0 ++ ev :: rest) =
  fold_left (extend r c) rest (extend r c (exec r c evs0) ev).
Proof. rewrite exec_app. reflexivity. Qed.

(** * Claims *)

(** C1: in every run of every role (aioxmpp or slixmpp, sender or
    receiver), a [Done]-tagged message has a body, and that body is the
    strict UTF-8 decoding of the bytes received on the role's IBB stream
    up to that point ([received] counts only incoming data blocks, never
    the role's own writes). *)
Theorem done_body_is_received_bytes r c evs pre to body post :
  snd (exec r c evs) = pre ++ LOut (OSend to Done body) :: post ->
  exists b, body = Some b /\ utf8_decode (received pre) = Some b.
Proof. apply done_in_log. Qed.

(** C9: the decoding is strict: a [Done] message is only sent when the
    received bytes are valid UTF-8, and where a role decodes invalid bytes
    the next thing it does is raise [UnicodeDecodeError], after which its
    [run] stays failed. *)
Theorem strict_decode_guards_done r c evs :
  (forall pre to body post,
     snd (exec r c evs) = pre ++ LOut (OSend to Done body) :: post ->
     utf8_decode (received pre) <> None) /\
  (forall pre post,
     snd (exec r c evs) = pre ++ LOut ODecode :: post ->
     utf8_decode (received pre) = None ->
     (exists post', post = LOut (ORaise EUnicodeDecode) :: post') /\
     (fst (exec r c evs)).(pc) = PFailed EUnicodeDecode).
Proof.
  split.
  - intros pre to body post H.
    destruct (done_in_log _ _ _ _ _ _ _ H) as (b & _ & Hb). congruence.
  - intros pre post H Hd.
    pose proof H as H0.
    apply log_split in H as (evs0 & ev & rest & o1 & o2 & Hevs & Hs & Hpre).
    destruct (exec r c evs0) as [s0 l0] eqn:E0. simpl in Hs, Hpre.
    destruct (step r c s0 ev) as [s' outs] eqn:S. simpl in Hs. subst outs.
    destruct (step_decode _ _ _ _ _ _ S) as (He & Hinv).
    { apply in_or_app. simpl. auto. }
    subst pre. rewrite received_step_prefix in Hd by exact He.
    destruct (exec_inv r c evs0) as (Ha & _). rewrite E0 in Ha. simpl in Ha.
    rewrite <- Ha in Hd.
    destruct (Hinv Hd) as (o & Ho & Hno & Hpc).
    destruct (split_unique o1 o2 o ODecode (ORaise EUnicodeDecode) ltac:(discriminate) Ho Hno) as [-> ->].
    rewrite Hevs, exec_cons_split, E0 in H0 |- *.
    unfold extend at 2 in H0. unfold extend at 2. rewrite S in H0 |- *.
    split.
    + destruct (fold_extend_log r c rest (s', l0 ++ LIn ev :: map LOut (o ++ [ODecode; ORaise EUnicodeDecode])))
        as [m Hm].
      rewrite Hm in H0. simpl in H0.
      rewrite map_app, <- !app_assoc in H0. simpl in H0.
      apply app_inv_head in H0. inversion H0 as [H1].
      rewrite <- app_assoc in H1. apply app_inv_head in H1.
      simpl in H1. inversion H1. eauto.
    + apply fold_extend_failed. exact Hpc.
Qed.

(** C10: the accumulator of every role is, at every point of a run, the
    concatenation in arrival order of the data blocks delivered to its
    stream; each step appends the block of a data event (if the stream
    exists) and changes the accumulator in no other way. *)
Theorem acc_is_concat_of_chunks r c evs :
  (fst (exec r c evs)).(acc) = received (snd (exec r c evs)) /\
  forall ev s' outs,
    step r c (fst (exec r c evs)) ev = (s', outs) ->
    s'.(acc) = (fst (exec r c evs)).(acc)
               ++ (if (fst (exec r c evs)).(up) then ev_data ev else []).
Proof.
  destruct (exec_inv r c evs) as (Ha & _ & Hq & Hh). split; [exact Ha|].
  intros ev s' outs S. exact (proj1 (step_frame _ _ _ _ _ _ S Hq Hh)).
Qed.

(** ** Lemmas on the stream operations *)

Lemma warren_enc : utf8_encode warren_text = Some warren_bytes.
Proof. vm_compute. reflexivity. Qed.

Lemma freight_enc : utf8_encode freight_text = Some freight_bytes.
Proof. vm_compute. reflexivity. Qed.

Lemma stream_ops_app l m : stream_ops (l ++ m) = stream_ops l ++ stream_ops m.
Proof. unfold stream_ops. apply flat_map_app. Qed.

Lemma step_write r c s ev s' outs x :
  step r c s ev = (s', outs) -> In (OWrite x) outs ->
  utf8_encode (payload_text r) = Some x.
Proof.
  destruct s as [p a u q h o cl cd e]; simpl; intros H Hin.
  destruct r, ev; unfold_step H; rewrite ?warren_enc in H; simpl in *;
    split_matches H; inversion H; subst; simpl in Hin;
    repeat match type of Hin with _ \/ _ => destruct Hin as [Hin|Hin] end;
    try discriminate; try contradiction; inversion Hin; subst;
    first [exact warren_enc | exact freight_enc].
Qed.

Lemma sender_inv_step r c s l ev s' outs :
  r = AioSend \/ r = SlixSend -> sender_inv c s l -> step r c s ev = (s', outs) ->
  sender_inv c s' (l ++ LIn ev :: map LOut outs).
Proof.
  intros Hr Hi H. destruct s as [p a u q h o cl cd e].
  unfold sender_inv in *; simpl in *. rewrite stream_ops_app.
  destruct Hr as [-> | ->]; destruct ev, p; unfold_step H; rewrite ?warren_enc in H;
    simpl in *; split_matches H; inversion H; subst; simpl in *;
    try contradiction;
    try match type of Hi with ex _ => destruct Hi as [? Hi] end;
    rewrite ?Hi; simpl; rewrite ?app_nil_r;
    first [reflexivity | eexists; reflexivity].
Qed.

Lemma sender_inv_exec r c evs :
  r = AioSend \/ r = SlixSend -> sender_inv c (fst (exec r c evs)) (snd (exec r c evs)).
Proof.
  intro Hr. induction evs as [|ev evs IH] using rev_ind.
  - destruct Hr as [-> | ->]; reflexivity.
  - rewrite exec_snoc. unfold extend. destruct (exec r c evs) as [s l].
    destruct (step r c s ev) as [s' outs] eqn:S. simpl in *.
    eapply sender_inv_step; eauto.
Qed.

Lemma step_closed r c s ev s' outs e :
  step r c s ev = (s', outs) -> s'.(closed) = Some e ->
  s.(closed) = Some e \/ ev = EvClosed e.
Proof.
  destruct s as [p a u q h o cl cd e0]; simpl; intros H Hc.
  destruct r, ev; unfold_step H; simpl in *; split_matches H;
    inversion H; subst; simpl in *; inversion Hc; subst; auto.
Qed.

Lemma closed_exec r c evs e :
  (fst (exec r c evs)).(closed) = Some e -> In (LIn (EvClosed e)) (snd (exec r c evs)).
Proof.
  induction evs as [|ev evs IH] using rev_ind.
  - destruct r; discriminate.
  - rewrite exec_snoc. unfold extend. destruct (exec r c evs) as [s l].
    destruct (step r c s ev) as [s' outs] eqn:S. simpl in *. intro Hc.
    apply in_or_app.
    destruct (step_closed _ _ _ _ _ _ _ S Hc) as [H1 | ->]; simpl; auto.
Qed.

(** A sender sends [Done] only once its close signal reported no error. *)
Lemma sender_done_closed r c s ev s' outs to body :
  r = AioSend \/ r = SlixSend -> step r c s ev = (s', outs) ->
  In (OSend to Done body) outs -> s.(closed) = Some None.
Proof.
  destruct s as [p a u q h o cl cd e]; simpl; intros Hr H Hin.
  destruct Hr as [-> | ->]; destruct ev; unfold_step H; simpl in *;
    split_matches H; inversion H; subst; simpl in Hin;
    repeat match type of Hin with _ \/ _ => destruct Hin as [Hin|Hin] end;
    try discriminate; try contradiction; auto.
Qed.

(** C5: in every sender run (aioxmpp or slixmpp), the stream operations
    are a prefix of: write the fixed payload, close, send [Done] — so
    nothing is written after the close and [Done] comes last; and a
    [Done] message is only sent after the close signal has resolved
    without error. *)
Theorem sender_stream_order r c evs :
  r = AioSend \/ r = SlixSend ->
  (exists n b, stream_ops (snd (exec r c evs))
               = firstn n [OWrite warren_bytes; OClose; OSend c.(peer) Done b]) /\
  (forall pre to body post,
     snd (exec r c evs) = pre ++ LOut (OSend to Done body) :: post ->
     In (LIn (EvClosed None)) pre).
Proof.
  intro Hr. split.
  - pose proof (sender_inv_exec r c evs Hr) as Hi. unfold sender_inv in Hi.
    destruct (pc (fst (exec r c evs))); try contradiction;
      try match type of Hi with
          | ex _ => destruct Hi as [b Hi]; exists 3%nat, b; exact Hi
          end;
      [exists 0%nat | exists 0%nat | exists 1%nat | exists 2%nat | exists 2%nat
      | exists 2%nat | exists 2%nat]; exists None; exact Hi.
  - intros pre to body post H.
    apply log_split in H as (evs0 & ev & rest & o1 & o2 & _ & Hs & ->).
    destruct (step r c (fst (exec r c evs0)) ev) as [s' outs] eqn:S. simpl in Hs.
    subst outs.
    pose proof (sender_done_closed _ _ _ _ _ _ to body Hr S) as Hc.
    apply closed_exec in Hc. apply in_or_app. left. exact Hc.
    apply in_or_app. simpl. auto.
Qed.

(** C7: every write on the stream carries exactly the UTF-8 encoding of
    the role's fixed sentence: "Warren snores ... loons." for both
    senders, "I feel a deep security ... trains." for both receivers. *)
Theorem fixed_payloads r c evs x :
  In (LOut (OWrite x)) (snd (exec r c evs)) ->
  utf8_encode (payload_text r) = Some x.
Proof.
  intro H. apply in_split in H as (pre & post & H).
  apply log_split in H as (evs0 & ev & rest & o1 & o2 & _ & Hs & _).
  destruct (step r c (fst (exec r c evs0)) ev) as [s' outs] eqn:S. simpl in Hs.
  subst outs. eapply step_write; [exact S|]. apply in_or_app. simpl. auto.
Qed.

(** ** Lemmas on the rendezvous and on errors *)

Lemma step_closed_persist r c s ev s' outs e :
  step r c s ev = (s', outs) -> s.(closed) = Some e -> s'.(closed) = Some e.
Proof.
  destruct s as [p a u q h o cl cd e0]; simpl; intros H Hc; subst cd.
  destruct r, ev; unfold_step H; simpl in *; split_matches H;
    inversion H; subst; reflexivity.
Qed.

(** aioxmpp: with an error in [closed_fut], no step decodes or sends
    [Done], and reaching [PExited 1] is done by printing the cause and
    exiting. *)
Lemma aio_step_close_error r c s ev s' outs m :
  r = AioSend \/ r = AioRecv -> step r c s ev = (s', outs) ->
  s.(closed) = Some (Some m) ->
  ~ In ODecode outs /\ (forall t b, ~ In (OSend t Done b) outs) /\
  (s'.(pc) = PExited 1 -> s.(pc) <> PExited 1 ->
   exists o, outs = o ++ [OPrintErr ("error awaiting connection close: " ++ m)%string; OExit 1]).
Proof.
  destruct s as [p a u q h o cl cd e0]; simpl; intros Hr H Hc; subst cd.
  destruct Hr as [-> | ->]; destruct ev, p; unfold_step H; simpl in *;
    split_matches H; inversion H; subst; simpl;
    (split; [intuition discriminate | split;
      [intros t b; intuition discriminate | intros Hp Hn]]);
    try congruence;
    solve [ exists []; reflexivity
          | eexists [OWrite _; OClose]; reflexivity
          | exists [OWrite freight_bytes]; reflexivity ].
Qed.

(** No slixmpp code prints a diagnostic or calls [sys.exit]. *)
Lemma slix_step_no_exit r c s ev s' outs :
  r = SlixSend \/ r = SlixRecv -> step r c s ev = (s', outs) ->
  (forall m, ~ In (OPrintErr m) outs) /\ (forall n, ~ In (OExit n) outs).
Proof.
  destruct s as [p a u q h o cl cd e0]; simpl; intros Hr H.
  destruct Hr as [-> | ->]; destruct ev; unfold_step H; simpl in *;
    split_matches H; inversion H; subst; simpl; split; intros ? Hin;
    repeat match type of Hin with _ \/ _ => destruct Hin as [Hin|Hin] end;
    try discriminate; contradiction.
Qed.

(** The rendezvous: a step into one of the [run] positions in [P] either
    starts from one, or sends [Start]. *)
Lemma start_exec (P : pc_t -> Prop) r c :
  ~ P PInit ->
  (forall s ev s' outs, step r c s ev = (s', outs) -> P s'.(pc) ->
     P s.(pc) \/ exists b, In (OSend c.(peer) Start b) outs) ->
  forall evs, P (fst (exec r c evs)).(pc) ->
  exists b, In (LOut (OSend c.(peer) Start b)) (snd (exec r c evs)).
Proof.
  intros H0 Hs evs. induction evs as [|ev evs IH] using rev_ind.
  - simpl. destruct r; simpl; contradiction.
  - rewrite exec_snoc. unfold extend. destruct (exec r c evs) as [s l].
    destruct (step r c s ev) as [s' outs] eqn:S. simpl in *. intro Hp.
    destruct (Hs _ _ _ _ S Hp) as [Hp0 | [b Hb]].
    + destruct (IH Hp0) as [b Hb]. exists b. apply in_or_app. auto.
    + exists b. apply in_or_app. right. right. apply in_map. exact Hb.
Qed.

Lemma aio_recv_start_step c s ev s' outs :
  step AioRecv c s ev = (s', outs) -> aio_recv_started s'.(pc) ->
  aio_recv_started s.(pc) \/ exists b, In (OSend c.(peer) Start b) outs.
Proof.
  unfold aio_recv_started.
  destruct s as [p a u q h o cl cd e0]; simpl; intros H Hp.
  destruct ev, p; unfold_step H; simpl in *; split_matches H;
    inversion H; subst; simpl in *;
    first [left; discriminate | right; exists None; auto | contradiction].
Qed.

Lemma slix_recv_start_step c s ev s' outs :
  step SlixRecv c s ev = (s', outs) -> slix_recv_started s'.(pc) ->
  slix_recv_started s.(pc) \/ exists b, In (OSend c.(peer) Start b) outs.
Proof.
  unfold slix_recv_started.
  destruct s as [p a u q h o cl cd e0]; simpl; intros H Hp.
  destruct ev, p; unfold_step H; simpl in *; split_matches H;
    inversion H; subst; simpl in *;
    first [left; intuition discriminate | right; eexists; intuition eauto
          | intuition discriminate].
Qed.

Lemma aio_recv_accept_step c s ev s' outs a :
  step AioRecv c s ev = (s', outs) -> In a outs ->
  (exists f sid, a = OAccept f sid) \/ (exists f sid, a = OExpect f sid) ->
  aio_recv_started s.(pc).
Proof.
  unfold aio_recv_started.
  destruct s as [p a0 u q h o cl cd e0]; simpl; intros H Hin Ha.
  destruct ev, p; unfold_step H; simpl in *; split_matches H;
    inversion H; subst; simpl in *; try discriminate;
    repeat match type of Hin with _ \/ _ => destruct Hin as [Hin|Hin] end;
    try contradiction; subst;
    destruct Ha as [(? & ? & Ha) | (? & ? & Ha)]; discriminate.
Qed.

Lemma slix_recv_write_step c s ev s' outs x :
  step SlixRecv c s ev = (s', outs) -> In (OWrite x) outs ->
  slix_recv_started s.(pc) \/
  exists b, outs = [ODecode; OSend c.(peer) Start b; OWrite x].
Proof.
  unfold slix_recv_started.
  destruct s as [p a0 u q h o cl cd e0]; simpl; intros H Hin.
  destruct ev, p; unfold_step H; simpl in *; split_matches H;
    inversion H; subst; simpl in *;
    repeat match type of Hin with _ \/ _ => destruct Hin as [Hin|Hin] end;
    try discriminate; try contradiction; inversion Hin; subst;
    first [left; intuition reflexivity | right; eexists; reflexivity].
Qed.

(** aioxmpp's receiver decodes its accumulator only after [closed_fut]
    resolved without error. *)
Lemma aio_recv_decode_closed c s ev s' outs :
  step AioRecv c s ev = (s', outs) -> In ODecode outs -> s.(closed) = Some None.
Proof.
  destruct s as [p a0 u q h o cl cd e0]; simpl; intros H Hin.
  destruct ev, p; unfold_step H; simpl in *; split_matches H;
    inversion H; subst; simpl in *;
    repeat match type of Hin with _ \/ _ => destruct Hin as [Hin|Hin] end;
    try discriminate; try contradiction; auto.
Qed.

Lemma aio_close_error_wake r c s s' outs m :
  r = AioSend \/ r = AioRecv -> s.(pc) = PAwaitClosed -> s.(closed) = Some (Some m) ->
  step r c s EvWake = (s', outs) ->
  s'.(pc) = PExited 1 /\
  outs = [OPrintErr ("error awaiting connection close: " ++ m)%string; OExit 1].
Proof.
  destruct s as [p a0 u q h o cl cd e0]; simpl; intros Hr Hp Hc H; subst p cd.
  destruct Hr as [-> | ->]; unfold_step H; simpl in H; inversion H; subst; auto.
Qed.

(** C2 (code_bug): slixmpp's [RecvIBB] parses [-sid] but never uses it and
    registers the IBB plugin with [auto_accept]: with expected session id
    "abc123", an offer carrying "zzz999" is accepted, the [conn] future
    resolves and [run] goes on to write on that stream. *)
Theorem slix_recv_accepts_mismatched_sid :
  let c := mkcfg "gopher@example.net"%string (Some "abc123"%string) in
  let '(s, l) := exec SlixRecv c
      [EvBegin; EvOffer "gopher@example.net" "zzz999"; EvWake]%string in
  In (LOut (OAccept "gopher@example.net" "zzz999")) l /\
  s.(opened) = true /\ s.(pc) = PAwaitSendall /\
  In (LOut (OWrite freight_bytes)) l.
Proof.
  vm_compute. split; [|split; [reflexivity|split; [reflexivity|]]];
    repeat (try (left; reflexivity); right).
Qed.

(** The aioxmpp receiver, on the same offer, stays in [expect_session]. *)
Example aio_recv_ignores_mismatched_sid :
  let c := mkcfg "gopher@example.net"%string (Some "abc123"%string) in
  let '(s, l) := exec AioRecv c
      [EvBegin; EvWake; EvOffer "gopher@example.net" "zzz999";
       EvOffer "mallory@example.net" "abc123"; EvWake]%string in
  s.(pc) = PAwaitSession /\ s.(opened) = false /\ s.(up) = false.
Proof. vm_compute. auto. Qed.

(** In the aioxmpp binding, sender and receiver alike, an error in the
    close signal ([closed_fut]) rules out any decoding or [Done] message,
    and when [run] resumes at [await protocol.closed_fut] it prints
    "error awaiting connection close: <cause>" and exits with status 1.
    The slixmpp sender, resumed after a failed [conn.close()], raises the
    error out of [run] without sending [Done]; no slixmpp step prints a
    diagnostic or exits. *)
Lemma close_error_handling c :
  (forall r s ev s' outs m,
     r = AioSend \/ r = AioRecv -> step r c s ev = (s', outs) ->
     s.(closed) = Some (Some m) ->
     ~ In ODecode outs /\ (forall t b, ~ In (OSend t Done b) outs) /\
     (s.(pc) = PAwaitClosed -> ev = EvWake ->
      s'.(pc) = PExited 1 /\
      outs = [OPrintErr ("error awaiting connection close: " ++ m)%string; OExit 1])) /\
  (forall s s' outs m,
     s.(pc) = PAwaitClose -> s.(closed) = Some (Some m) ->
     step SlixSend c s EvWake = (s', outs) ->
     s'.(pc) = PFailed (EIq m) /\ outs = [ORaise (EIq m)]) /\
  (forall r s ev s' outs,
     r = SlixSend \/ r = SlixRecv -> step r c s ev = (s', outs) ->
     (forall m, ~ In (OPrintErr m) outs) /\ (forall n, ~ In (OExit n) outs)).
Proof.
  split; [|split].
  - intros r s ev s' outs m Hr H Hc.
    destruct (aio_step_close_error _ _ _ _ _ _ _ Hr H Hc) as (H1 & H2 & _).
    split; [exact H1|split; [exact H2|]].
    intros Hp ->. exact (aio_close_error_wake _ _ _ _ _ _ Hr Hp Hc H).
  - intros [p a0 u q h o cl cd e0] s' outs m Hp Hc H; simpl in *; subst p cd.
    unfold_step H; simpl in H; inversion H; subst; auto.
  - intros r s ev s' outs Hr H. exact (slix_step_no_exit _ _ _ _ _ _ Hr H).
Qed.

(** A slixmpp run of the sender whose close request is answered with
    an error: [run] raises the error and neither prints nor exits. *)
Lemma slix_close_error_run :
  let '(s, l) := exec SlixSend ex_cfg
      [EvBegin; EvOpened; EvWake; EvWake; EvClosed (Some "not-acceptable");
       EvWake]%string in
  run_outcome s = Some (ORaised (EIq "not-acceptable")) /\
  (forall n, ~ In (LOut (OExit n)) l) /\ (forall m, ~ In (LOut (OPrintErr m)) l).
Proof.
  vm_compute. split; [reflexivity|split];
    intros ? Hin; repeat destruct Hin as [Hin|Hin]; try discriminate; contradiction.
Qed.

(** The same close error under aioxmpp: the sender prints the diagnostic
    with the cause and exits with status 1. *)
Lemma aio_close_error_run :
  let '(s, l) := exec AioSend ex_cfg
      [EvBegin; EvOpened; EvWake; EvClosed (Some "not-acceptable"); EvWake]%string in
  run_outcome s = Some (OSysExit 1) /\
  In (LOut (OPrintErr "error awaiting connection close: not-acceptable")) l /\
  In (LOut (OExit 1)) l.
Proof.
  vm_compute. split; [reflexivity|split]; repeat (first [left; reflexivity | right]).
Qed.

(** C3 (code bug): when the close of the stream reports an error, the
    aioxmpp sender prints "error awaiting connection close: <cause>" and
    exits with status 1; no step of a slixmpp role prints a diagnostic or
    calls [sys.exit], and the slixmpp sender only raises the [IqError] out
    of [run]. The [session_start] handler logs and drops that exception,
    [run_test] keeps waiting, and when the session then ends it returns
    and the process exits with status 0. *)
Theorem close_error_divergence :
  (let '(s, l) := exec AioSend ex_cfg
      [EvBegin; EvOpened; EvWake; EvClosed (Some "not-acceptable"); EvWake]%string in
   run_outcome s = Some (OSysExit 1) /\
   In (LOut (OPrintErr "error awaiting connection close: not-acceptable")) l /\
   In (LOut (OExit 1)) l) /\
  (forall r c s ev s' outs,
     r = SlixSend \/ r = SlixRecv -> step r c s ev = (s', outs) ->
     (forall m, ~ In (OPrintErr m) outs) /\ (forall n, ~ In (OExit n) outs)) /\
  (let '(s, l) := exec SlixSend ex_cfg
      [EvBegin; EvOpened; EvWake; EvWake; EvClosed (Some "not-acceptable");
       EvWake]%string in
   run_outcome s = Some (ORaised (EIq "not-acceptable")) /\
   (forall n, ~ In (LOut (OExit n)) l) /\ (forall m, ~ In (LOut (OPrintErr m)) l)) /\
  slix_run_test [DSessionStart; DBodyDone (ORaised (EIq "not-acceptable"));
                 DSessionEnd] = ([DConnect; DRunBody; DLogExc], Some ONormal) /\
  exit_status ONormal = 0.
Proof.
  split; [exact aio_close_error_run|split; [|split; [exact slix_close_error_run|]]].
  - intros r c s ev s' outs Hr H. exact (slix_step_no_exit _ _ _ _ _ _ Hr H).
  - split; reflexivity.
Qed.

(** The slixmpp runner itself never releases the connection. *)
Lemma slix_run_test_no_release evs : ~ In DRelease (fst (slix_run_test evs)).
Proof.
  unfold slix_run_test. simpl. intros [H|H]; [discriminate|].
  induction evs as [|[|[| |n|]| |] evs IH]; simpl in *; auto;
    destruct H; try discriminate; auto.
Qed.

(** C4 (code bug): the aioxmpp runner releases the connection once, after
    the body, whatever way the body ends, and propagates the outcome. The
    slixmpp runner never disconnects: when the body has completed and no
    [session_end] comes within the 30 second timeout of [wait_until],
    [run_test] raises [asyncio.TimeoutError] and the process exits with
    status 1 without the connection ever having been released. *)
Theorem slix_runner_exits_without_release :
  (forall o, aio_run_test (Some o) = ([DConnect; DRunBody; DRelease], Some o)) /\
  (forall evs, ~ In DRelease (fst (slix_run_test evs))) /\
  slix_run_test [DSessionStart; DBodyDone ONormal; DTimeout]
    = ([DConnect; DRunBody], Some (ORaised ETimeout)) /\
  exit_status (ORaised ETimeout) = 1.
Proof.
  split; [reflexivity|split; [exact slix_run_test_no_release|split; reflexivity]].
Qed.

(** The aioxmpp receiver sends [Start] before it calls [expect_session],
    so it accepts no offer before [Start]; the slixmpp receiver sends
    [Start] before it writes on an accepted stream. *)
Lemma receiver_start_ordering c evs :
  (forall pre a post,
     snd (exec AioRecv c evs) = pre ++ LOut a :: post ->
     (exists f sid, a = OAccept f sid) \/ (exists f sid, a = OExpect f sid) ->
     exists b, In (LOut (OSend c.(peer) Start b)) pre) /\
  (forall pre x post,
     snd (exec SlixRecv c evs) = pre ++ LOut (OWrite x) :: post ->
     exists b, In (LOut (OSend c.(peer) Start b)) pre).
Proof.
  split.
  - intros pre a post H Ha.
    apply log_split in H as (evs0 & ev & rest & o1 & o2 & _ & Hs & ->).
    destruct (step AioRecv c (fst (exec AioRecv c evs0)) ev) as [s' outs] eqn:S.
    simpl in Hs. subst outs.
    assert (aio_recv_started (fst (exec AioRecv c evs0)).(pc)) as Hp.
    { eapply aio_recv_accept_step; [exact S| |exact Ha].
      apply in_or_app. simpl. auto. }
    destruct (start_exec aio_recv_started AioRecv c ltac:(intro X; apply X; reflexivity)
                (aio_recv_start_step c) evs0 Hp) as [b Hb].
    exists b. apply in_or_app. auto.
  - intros pre x post H.
    apply log_split in H as (evs0 & ev & rest & o1 & o2 & _ & Hs & ->).
    destruct (step SlixRecv c (fst (exec SlixRecv c evs0)) ev) as [s' outs] eqn:S.
    simpl in Hs. subst outs.
    assert (In (OWrite x) (o1 ++ OWrite x :: o2)) as Hin
      by (apply in_or_app; simpl; auto).
    destruct (slix_recv_write_step _ _ _ _ _ x S Hin) as [Hp | [b Hb]].
    + destruct (start_exec slix_recv_started SlixRecv c
                  ltac:(unfold slix_recv_started; intuition discriminate)
                  (slix_recv_start_step c) evs0 Hp) as [b Hb].
      exists b. apply in_or_app. auto.
    + exists b. apply in_or_app. right. right.
      destruct o1 as [|y1 [|y2 [|y3 o1]]]; simpl in Hb; inversion Hb; subst.
      * simpl. auto.
      * destruct o1; discriminate.
Qed.

(** The slixmpp receiver's plugin accepts an offer that arrives before
    [run] has sent [Start]. *)
Lemma slix_recv_accepts_before_start :
  exists pre post,
    snd (exec SlixRecv ex_cfg [EvOffer "gopher@example.net" "abc123"; EvBegin]%string)
      = pre ++ LOut (OAccept "gopher@example.net" "abc123") :: post /\
    ~ (exists t b, In (LOut (OSend t Start b)) pre).
Proof.
  eexists [_], _. split.
  - vm_compute. reflexivity.
  - intros (t & b & [H | []]). discriminate.
Qed.

(** C6 (code bug): in every aioxmpp receiver run, [Start] is sent before
    the receiver calls [expect_session] or accepts a stream; the slixmpp
    receiver configures [xep_0047] with [auto_accept], so an offer that
    arrives before its [run] has sent [Start] is accepted at once. *)
Theorem receiver_start_divergence :
  (forall c evs pre a post,
     snd (exec AioRecv c evs) = pre ++ LOut a :: post ->
     (exists f sid, a = OAccept f sid) \/ (exists f sid, a = OExpect f sid) ->
     exists b, In (LOut (OSend c.(peer) Start b)) pre) /\
  (exists pre post,
     snd (exec SlixRecv ex_cfg [EvOffer "gopher@example.net" "abc123"; EvBegin]%string)
       = pre ++ LOut (OAccept "gopher@example.net" "abc123") :: post /\
     ~ (exists t b, In (LOut (OSend t Start b)) pre)).
Proof.
  split; [|exact slix_recv_accepts_before_start].
  intros c evs. exact (proj1 (receiver_start_ordering c evs)).
Qed.

(** The aioxmpp receiver reads its accumulator only after its stream
    ended ([closed_fut] resolved with no error). *)
Lemma aio_recv_reads_after_end c evs pre post :
  snd (exec AioRecv c evs) = pre ++ LOut ODecode :: post ->
  In (LIn (EvClosed None)) pre.
Proof.
  intro H. apply log_split in H as (evs0 & ev & rest & o1 & o2 & _ & Hs & ->).
  destruct (step AioRecv c (fst (exec AioRecv c evs0)) ev) as [s' outs] eqn:S.
  simpl in Hs. subst outs.
  apply in_or_app. left. apply closed_exec.
  eapply aio_recv_decode_closed; [exact S|]. apply in_or_app. simpl. auto.
Qed.

(** C8 (code_bug): slixmpp's [RecvIBB.run] builds its [Start] message with
    [mbody=self.data.decode('utf-8')], reading the accumulator at the very
    start of [run], before any [ibb_stream_end]. *)
Theorem slix_recv_reads_acc_before_end :
  snd (exec SlixRecv ex_cfg [EvBegin])
    = [LIn EvBegin; LOut ODecode; LOut (OSend "gopher@example.net"%string Start (Some []))] /\
  ~ In (LIn EvEnd) (snd (exec SlixRecv ex_cfg [EvBegin])).
Proof.
  split.
  - reflexivity.
  - vm_compute. intros [H | [H | [H | []]]]; discriminate.
Qed.

(** ** Instances of the claims' theorems on concrete runs *)

(** C1 on the complete aioxmpp receiver run: the [Done] body is the
    decoding of the received bytes. *)
Lemma done_body_witness :
  snd (exec AioRecv ex_cfg happy_evs)
    = removelast (snd (exec AioRecv ex_cfg happy_evs))
      ++ [LOut (OSend "gopher@example.net"%string Done (Some (ascii_cps "Hi")))] /\
  exists b, Some (ascii_cps "Hi") = Some b /\
    utf8_decode (received (removelast (snd (exec AioRecv ex_cfg happy_evs)))) = Some b.
Proof.
  assert (H : snd (exec AioRecv ex_cfg happy_evs)
    = removelast (snd (exec AioRecv ex_cfg happy_evs))
      ++ [LOut (OSend "gopher@example.net"%string Done (Some (ascii_cps "Hi")))])
    by (vm_compute; reflexivity).
  split; [exact H|]. exact (done_body_is_received_bytes _ _ _ _ _ _ _ H).
Defined.

(** C5 on an aioxmpp sender run that closes without error. *)
Lemma sender_stream_order_witness :
  let evs := [EvBegin; EvOpened; EvWake; EvData (ascii_cps "Hi"); EvClosed None; EvWake] in
  AioSend = AioSend /\
  (exists n b, stream_ops (snd (exec AioSend ex_cfg evs))
     = firstn n [OWrite warren_bytes; OClose; OSend ex_cfg.(peer) Done b]) /\
  (forall pre to body post,
     snd (exec AioSend ex_cfg evs) = pre ++ LOut (OSend to Done body) :: post ->
     In (LIn (EvClosed None)) pre).
Proof.
  intro evs. split; [reflexivity|].
  exact (sender_stream_order AioSend ex_cfg evs (or_introl eq_refl)).
Defined.

(** C7 on the complete aioxmpp receiver run: the receiver writes the
    UTF-8 encoding of its fixed sentence. *)
Lemma fixed_payloads_witness :
  In (LOut (OWrite freight_bytes)) (snd (exec AioRecv ex_cfg happy_evs)) /\
  utf8_encode (payload_text AioRecv) = Some freight_bytes.
Proof.
  assert (H : In (LOut (OWrite freight_bytes)) (snd (exec AioRecv ex_cfg happy_evs)))
    by (vm_compute; tauto).
  split; [exact H|]. exact (fixed_payloads _ _ _ _ H).
Defined.

(** ** Lemmas on [str.encode] and [bytes.decode] *)

Ltac zcase :=
  match goal with
  | |- context [?a <=? ?b] => destruct (Z.leb_spec a b)
  | |- context [?a =? ?b] => destruct (Z.eqb_spec a b)
  | |- context [?a <? ?b] => destruct (Z.ltb_spec a b)
  end.

Ltac digits c :=
  rewrite ?Z.shiftr_div_pow2 by lia;
  change 63 with (Z.ones 6); rewrite ?Z.land_ones by lia;
  change (2^6) with 64; change (2^12) with (64*64);
  change (2^18) with (64*64*64);
  rewrite <- ?Z.div_div by lia;
  pose proof (Z.div_mod c 64 ltac:(lia));
  pose proof (Z.mod_pos_bound c 64 ltac:(lia));
  pose proof (Z.div_mod (c/64) 64 ltac:(lia));
  pose proof (Z.mod_pos_bound (c/64) 64 ltac:(lia));
  pose proof (Z.div_mod (c/64/64) 64 ltac:(lia));
  pose proof (Z.mod_pos_bound (c/64/64) 64 ltac:(lia));
  pose proof (Z.mod_pos_bound (c/64/64/64) 64 ltac:(lia));
  set (q1 := c/64) in *; set (q2 := q1/64) in *; set (q3 := q2/64) in *;
  set (r0 := c mod 64) in *; set (r1 := q1 mod 64) in *;
  set (r2 := q2 mod 64) in *.

Lemma utf8_decode_cons b1 r1 :
  utf8_decode (b1 :: r1) =
      if in_range 0 127 b1 then
        option_map (cons b1) (utf8_decode r1)
      else if in_range 194 223 b1 then
        match r1 with
        | b2 :: r2 =>
            if cont b2 then
              option_map (cons (Z.shiftl (b1 - 192) 6 + (b2 - 128)))
                (utf8_decode r2)
            else None
        | [] => None
        end
      else if in_range 224 239 b1 then
        match r1 with
        | b2 :: b3 :: r3 =>
            if second_ok b1 b2 && cont b3 then
              option_map
                (cons (Z.shiftl (b1 - 224) 12 + Z.shiftl (b2 - 128) 6
                       + (b3 - 128)))
                (utf8_decode r3)
            else None
        | _ => None
        end
      else if in_range 240 244 b1 then
        match r1 with
        | b2 :: b3 :: b4 :: r4 =>
            if second_ok b1 b2 && cont b3 && cont b4 then
              option_map
                (cons (Z.shiftl (b1 - 240) 18 + Z.shiftl (b2 - 128) 12
                       + Z.shiftl (b3 - 128) 6 + (b4 - 128)))
                (utf8_decode r4)
            else None
        | _ => None
        end
      else None.
Proof. reflexivity. Qed.

Lemma decode_encode_cp_gen c rest :
  match utf8_encode_cp c with
  | Some b => utf8_decode (b ++ rest) = option_map (cons c) (utf8_decode rest)
  | None => True
  end.
Proof.
  unfold utf8_encode_cp.
  destruct (Z.ltb_spec c 0); [exact I|].
  digits c.
  repeat (zcase; try lia); cbv beta iota delta [andb]; try exact I.
  all: rewrite <- ?app_comm_cons, ?app_nil_l, ?utf8_decode_cons; cbv beta iota;
    unfold cont, in_range, second_ok.
  all: repeat (unfold cont, in_range; zcase; cbv beta iota delta [andb]; try lia).
  all: rewrite ?Z.shiftl_mul_pow2 by lia; change (2^6) with 64;
    change (2^12) with 4096; change (2^18) with 262144; do 2 f_equal; lia.
Qed.

Lemma decode_encode_cp c b rest :
  utf8_encode_cp c = Some b ->
  utf8_decode (b ++ rest) = option_map (cons c) (utf8_decode rest).
Proof.
  intro H. pose proof (decode_encode_cp_gen c rest) as G. rewrite H in G. exact G.
Qed.

Lemma utf8_encode_decode_app s b rest :
  utf8_encode s = Some b ->
  utf8_decode (b ++ rest) = option_map (app s) (utf8_decode rest).
Proof.
  revert b; induction s as [|c s IH]; intros b H; simpl in H.
  - injection H as <-. simpl. destruct (utf8_decode rest); reflexivity.
  - destruct (utf8_encode_cp c) as [x|] eqn:Ec; [|discriminate].
    destruct (utf8_encode s) as [y|] eqn:Es; [|discriminate].
    injection H as <-. rewrite <- app_assoc, (decode_encode_cp _ _ _ Ec), (IH y eq_refl).
    destruct (utf8_decode rest); reflexivity.
Qed.

Ltac zintro :=
  repeat (unfold cont, in_range, second_ok; zcase; cbv beta iota delta [andb];
          try discriminate; try lia).

Lemma enc_cp_2 b1 b2 :
  in_range 194 223 b1 = true -> cont b2 = true ->
  utf8_encode_cp (Z.shiftl (b1 - 192) 6 + (b2 - 128)) = Some [b1; b2].
Proof.
  rewrite Z.shiftl_mul_pow2 by lia. change (2^6) with 64.
  set (v := (b1 - 192) * 64 + (b2 - 128)).
  assert (Hv : v = (b1 - 192) * 64 + (b2 - 128)) by reflexivity. clearbody v.
  unfold utf8_encode_cp. zintro. intros _ _. digits v. zintro. do 3 f_equal; lia.
Qed.

Lemma enc_cp_1 b1 : in_range 0 127 b1 = true -> utf8_encode_cp b1 = Some [b1].
Proof. unfold utf8_encode_cp. zintro; auto. Qed.

Lemma enc_cp_3 b1 b2 b3 :
  in_range 224 239 b1 = true -> second_ok b1 b2 && cont b3 = true ->
  utf8_encode_cp (Z.shiftl (b1 - 224) 12 + Z.shiftl (b2 - 128) 6 + (b3 - 128))
    = Some [b1; b2; b3].
Proof.
  rewrite !Z.shiftl_mul_pow2 by lia. change (2^6) with 64. change (2^12) with 4096.
  set (v := (b1 - 224) * 4096 + (b2 - 128) * 64 + (b3 - 128)).
  assert (Hv : v = (b1 - 224) * 4096 + (b2 - 128) * 64 + (b3 - 128)) by reflexivity.
  clearbody v.
  unfold utf8_encode_cp. zintro; intros _ _; digits v; zintro; do 4 f_equal; lia.
Qed.

Lemma enc_cp_4 b1 b2 b3 b4 :
  in_range 240 244 b1 = true -> second_ok b1 b2 && cont b3 && cont b4 = true ->
  utf8_encode_cp (Z.shiftl (b1 - 240) 18 + Z.shiftl (b2 - 128) 12
                  + Z.shiftl (b3 - 128) 6 + (b4 - 128))
    = Some [b1; b2; b3; b4].
Proof.
  rewrite !Z.shiftl_mul_pow2 by lia. change (2^6) with 64. change (2^12) with 4096.
  change (2^18) with 262144.
  set (v := (b1 - 240) * 262144 + (b2 - 128) * 4096 + (b3 - 128) * 64 + (b4 - 128)).
  assert (Hv : v = (b1 - 240) * 262144 + (b2 - 128) * 4096 + (b3 - 128) * 64
                   + (b4 - 128)) by reflexivity.
  clearbody v.
  unfold utf8_encode_cp. zintro; intros _ _; digits v; zintro; do 5 f_equal; lia.
Qed.

Lemma utf8_encode_cons c s :
  utf8_encode (c :: s) =
  match utf8_encode_cp c, utf8_encode s with
  | Some b, Some r => Some (b ++ r)
  | _, _ => None
  end.
Proof. reflexivity. Qed.

Lemma utf8_decode_encode_n n :
  forall l, (List.length l <= n)%nat ->
  match utf8_decode l with Some s => utf8_encode s = Some l | None => True end.
Proof.
  induction n as [|n IH]; intros [|b1 r1] Hl; try exact eq_refl;
    [simpl in Hl; lia|].
  simpl in Hl. rewrite utf8_decode_cons.
  destruct (in_range 0 127 b1) eqn:R1.
  { specialize (IH r1 ltac:(lia)). destruct (utf8_decode r1) as [s|]; [|exact I].
    cbv beta iota delta [option_map]; rewrite utf8_encode_cons, enc_cp_1, IH by exact R1. reflexivity. }
  destruct (in_range 194 223 b1) eqn:R2.
  { destruct r1 as [|b2 r2]; [exact I|].
    destruct (cont b2) eqn:C; [|exact I].
    simpl in Hl. specialize (IH r2 ltac:(lia)).
    destruct (utf8_decode r2) as [s|]; [|exact I].
    cbv beta iota delta [option_map]; rewrite utf8_encode_cons, enc_cp_2, IH by assumption. reflexivity. }
  destruct (in_range 224 239 b1) eqn:R3.
  { destruct r1 as [|b2 [|b3 r3]]; try exact I.
    destruct (second_ok b1 b2 && cont b3) eqn:C; [|exact I].
    simpl in Hl. specialize (IH r3 ltac:(lia)).
    destruct (utf8_decode r3) as [s|]; [|exact I].
    cbv beta iota delta [option_map]; rewrite utf8_encode_cons, enc_cp_3, IH by assumption. reflexivity. }
  destruct (in_range 240 244 b1) eqn:R4; [|exact I].
  destruct r1 as [|b2 [|b3 [|b4 r4]]]; try exact I.
  destruct (second_ok b1 b2 && cont b3 && cont b4) eqn:C; [|exact I].
  simpl in Hl. specialize (IH r4 ltac:(lia)).
  destruct (utf8_decode r4) as [s|]; [|exact I].
  cbv beta iota delta [option_map]; rewrite utf8_encode_cons, enc_cp_4, IH by assumption. reflexivity.
Qed.

Lemma utf8_decode_encode l s : utf8_decode l = Some s -> utf8_encode s = Some l.
Proof.
  intro H. pose proof (utf8_decode_encode_n (List.length l) l (le_n _)) as G.
  rewrite H in G. exact G.
Qed.

Lemma utf8_decode_app a x rest :
  utf8_decode a = Some x ->
  utf8_decode (a ++ rest) = option_map (app x) (utf8_decode rest).
Proof. intro H. apply utf8_encode_decode_app, utf8_decode_encode, H. Qed.

Lemma utf8_encode_cp_none c :
  utf8_encode_cp c = None <-> (c < 0 \/ (55296 <= c <= 57343) \/ 1114112 <= c).
Proof. unfold utf8_encode_cp. repeat (zcase; cbv beta iota delta [andb]);
  split; intro E; try discriminate; try reflexivity; lia. Qed.

Lemma utf8_encode_none s :
  utf8_encode s = None <->
  exists c, In c s /\ (c < 0 \/ (55296 <= c <= 57343) \/ 1114112 <= c).
Proof.
  induction s as [|c s IH]; simpl.
  - split; [discriminate | intros (? & [] & _)].
  - destruct (utf8_encode_cp c) as [x|] eqn:Ec; destruct (utf8_encode s) as [y|] eqn:Es.
    + split; [discriminate|]. intros (c' & [<- | Hin] & Hc).
      * apply utf8_encode_cp_none in Hc. congruence.
      * destruct IH as [_ IH]. discriminate (IH (ex_intro _ c' (conj Hin Hc))).
    + split; [|reflexivity]. intros _. destruct IH as [IH _].
      destruct (IH eq_refl) as (c' & Hin & Hc). eauto.
    + split; [|reflexivity]. intros _. exists c. split; auto. apply utf8_encode_cp_none, Ec.
    + split; [|reflexivity]. intros _. exists c. split; auto. apply utf8_encode_cp_none, Ec.
Qed.

Lemma utf8_encode_cp_length c b :
  utf8_encode_cp c = Some b -> (1 <= List.length b <= 4)%nat.
Proof.
  unfold utf8_encode_cp. repeat (zcase; cbv beta iota delta [andb]);
    intro E; try discriminate; injection E as <-; simpl; lia.
Qed.

(** [str.encode('utf-8')] takes one to four bytes per code point. *)
Lemma utf8_encode_length_bounds s b :
  utf8_encode s = Some b -> (List.length s <= List.length b <= 4 * List.length s)%nat.
Proof.
  revert b; induction s as [|c s IH]; intros b H; simpl in H.
  - injection H as <-. simpl. lia.
  - destruct (utf8_encode_cp c) as [x|] eqn:Ec; [|discriminate].
    destruct (utf8_encode s) as [y|] eqn:Es; [|discriminate].
    injection H as <-. apply utf8_encode_cp_length in Ec.
    specialize (IH y eq_refl). rewrite length_app. simpl. lia.
Qed.

(** Bytes below 128 decode to the same code points, and ASCII text encodes
    to the same bytes. *)
Lemma utf8_ascii_identity l :
  (forall b, In b l -> 0 <= b < 128) -> utf8_decode l = Some l /\ utf8_encode l = Some l.
Proof.
  induction l as [|b l IH]; intro H; [split; reflexivity|].
  assert (Hb : in_range 0 127 b = true).
  { unfold in_range. destruct (H b (or_introl eq_refl)).
    apply andb_true_iff; split; apply Z.leb_le; lia. }
  destruct IH as [IH1 IH2]; [intros; apply H; simpl; auto|].
  rewrite utf8_decode_cons, Hb, IH1, utf8_encode_cons, enc_cp_1, IH2 by exact Hb.
  split; reflexivity.
Qed.

Lemma utf8_truncated_cp_gen c :
  match utf8_encode_cp c with
  | Some b => forall k, (0 < k < List.length b)%nat -> utf8_decode (firstn k b) = None
  | None => True
  end.
Proof.
  unfold utf8_encode_cp.
  destruct (Z.ltb_spec c 0); [exact I|].
  digits c.
  repeat (zcase; try lia); cbv beta iota delta [andb]; try exact I;
    intros k Hk; destruct k as [|[|[|[|k]]]]; simpl in Hk; try lia;
    cbn [firstn]; rewrite ?utf8_decode_cons; cbv beta iota; zintro; reflexivity.
Qed.

(** An accumulator that ends inside a multi-byte character (the stream
    stopped between the bytes of one character) fails to decode. *)
Lemma utf8_decode_truncated a x c b k :
  utf8_decode a = Some x -> utf8_encode_cp c = Some b -> (0 < k < List.length b)%nat ->
  utf8_decode (a ++ firstn k b) = None.
Proof.
  intros Ha Hc Hk. rewrite (utf8_decode_app _ _ _ Ha).
  pose proof (utf8_truncated_cp_gen c) as G. rewrite Hc in G. rewrite (G k Hk).
  reflexivity.
Qed.

(** ** Lemmas on what a run does once *)

Lemma actions_app l m : actions (l ++ m) = actions l ++ actions m.
Proof. apply flat_map_app. Qed.

Lemma actions_step l ev outs : actions (l ++ LIn ev :: map LOut outs) = actions l ++ outs.
Proof.
  rewrite actions_app. f_equal. simpl.
  induction outs as [|a outs IH]; simpl; [reflexivity|]. rewrite IH. reflexivity.
Qed.

Section AtMostOnce.
Variables (r : role) (c : cfg) (f : action -> bool) (P : st -> Prop).
Hypothesis step_once : forall s ev s' outs, step r c s ev = (s', outs) ->
  (List.length (filter f outs) <= 1)%nat /\
  (filter f outs <> [] -> P s') /\
  (P s -> P s' /\ filter f outs = []).

Lemma at_most_once_inv evs :
  filter f (actions (snd (exec r c evs))) = [] \/
  (List.length (filter f (actions (snd (exec r c evs)))) = 1%nat /\ P (fst (exec r c evs))).
Proof.
  induction evs as [|ev evs IH] using rev_ind; [left; destruct r; reflexivity|].
  rewrite exec_snoc. unfold extend. destruct (exec r c evs) as [s l]. simpl in IH.
  destruct (step r c s ev) as [s' outs] eqn:S. simpl.
  destruct (step_once _ _ _ _ S) as (H1 & H2 & H3).
  rewrite actions_step, filter_app, length_app.
  destruct IH as [E | [E Hp]].
  - rewrite E. simpl. destruct (filter f outs) as [|a [|b o]] eqn:F; simpl in *.
    + left. reflexivity.
    + right. split; [reflexivity|]. apply H2. discriminate.
    + lia.
  - destruct (H3 Hp) as [Hp' ->]. right. simpl. rewrite Nat.add_0_r. auto.
Qed.

Lemma at_most_once evs : (List.length (filter f (actions (snd (exec r c evs)))) <= 1)%nat.
Proof.
  destruct (at_most_once_inv evs) as [E | [E _]]; rewrite E; simpl; lia.
Qed.
End AtMostOnce.

Ltac step_cases r ev p H :=
  destruct r, ev, p; unfold_step H; simpl in *; split_matches H;
  inversion H; subst; simpl in *.

Lemma step_done_once r c s ev s' outs :
  step r c s ev = (s', outs) ->
  (List.length (filter is_done outs) <= 1)%nat /\
  (filter is_done outs <> [] -> done_phase s'.(pc) = true) /\
  (done_phase s.(pc) = true -> done_phase s'.(pc) = true /\ filter is_done outs = []).
Proof.
  destruct s as [p a u q h o cl cd e0]; simpl; intro H.
  step_cases r ev p H; repeat split; intros; try discriminate; try lia; try congruence.
Qed.

Ltac once_tac := repeat split; intros; try discriminate; try lia; try congruence.

Lemma step_start_once r c s ev s' outs :
  step r c s ev = (s', outs) ->
  (List.length (filter is_start outs) <= 1)%nat /\
  (filter is_start outs <> [] -> started_phase s'.(pc) = true) /\
  (started_phase s.(pc) = true -> started_phase s'.(pc) = true /\ filter is_start outs = []).
Proof.
  destruct s as [p a u q h o cl cd e0]; simpl; intro H. step_cases r ev p H; once_tac.
Qed.

Lemma step_request_once r c s ev s' outs :
  step r c s ev = (s', outs) ->
  (List.length (filter is_request outs) <= 1)%nat /\
  (filter is_request outs <> [] -> requested_phase s'.(pc) = true) /\
  (requested_phase s.(pc) = true ->
   requested_phase s'.(pc) = true /\ filter is_request outs = []).
Proof.
  destruct s as [p a u q h o cl cd e0]; simpl; intro H. step_cases r ev p H; once_tac.
Qed.

Lemma step_write_once r c s ev s' outs :
  step r c s ev = (s', outs) ->
  (List.length (filter is_write outs) <= 1)%nat /\
  (filter is_write outs <> [] -> wrote_phase s'.(pc) = true) /\
  (wrote_phase s.(pc) = true -> wrote_phase s'.(pc) = true /\ filter is_write outs = []).
Proof.
  destruct s as [p a u q h o cl cd e0]; simpl; intro H. step_cases r ev p H; once_tac.
Qed.

Lemma step_close_once r c s ev s' outs :
  step r c s ev = (s', outs) ->
  (List.length (filter is_close outs) <= 1)%nat /\
  (filter is_close outs <> [] -> closed_phase s'.(pc) = true) /\
  (closed_phase s.(pc) = true -> closed_phase s'.(pc) = true /\ filter is_close outs = []).
Proof.
  destruct s as [p a u q h o cl cd e0]; simpl; intro H. step_cases r ev p H; once_tac.
Qed.

Lemma aio_recv_accept_once c s ev s' outs :
  step AioRecv c s ev = (s', outs) ->
  (List.length (filter is_accept outs) <= 1)%nat /\
  (filter is_accept outs <> [] -> s'.(opened) = true) /\
  (s.(opened) = true -> s'.(opened) = true /\ filter is_accept outs = []).
Proof.
  destruct s as [p a u q h o cl cd e0]; simpl; intro H.
  destruct ev, p, o; unfold_step H; simpl in *; split_matches H;
    inversion H; subst; simpl in *; once_tac.
Qed.

Lemma aio_recv_accept_expected c s ev s' outs f sid :
  step AioRecv c s ev = (s', outs) -> In (OAccept f sid) outs ->
  f = c.(peer) /\ c.(exp_sid) = Some sid.
Proof.
  destruct s as [p a u q h o cl cd e0]; simpl; intros H Hin.
  destruct ev, p; unfold_step H; simpl in *; split_matches H;
    inversion H; subst; simpl in *;
    repeat match type of Hin with _ \/ _ => destruct Hin as [Hin|Hin] end;
    try discriminate; try contradiction.
  inversion Hin; subst.
  repeat match goal with
  | E : (_ && _)%bool = true |- _ => apply andb_true_iff in E as [? ?]
  end.
  repeat match goal with
  | E : String.eqb _ _ = true |- _ => apply String.eqb_eq in E
  | E : opt_eqb ?x _ = true |- _ =>
      unfold opt_eqb in E; destruct x; [apply String.eqb_eq in E | discriminate]
  end.
  subst. auto.
Qed.

Lemma step_opened_up r c s ev s' outs :
  step r c s ev = (s', outs) -> (s.(opened) = true -> s.(up) = true) ->
  (s'.(opened) = true -> s'.(up) = true) /\
  (forall x, In (OWrite x) outs -> s.(up) = true).
Proof.
  destruct s as [p a u q h o cl cd e0]; simpl; intros H Ho.
  step_cases r ev p H;
    split; intros; repeat match goal with E : _ \/ _ |- _ => destruct E end;
    try discriminate; try contradiction; auto.
Qed.

Lemma exec_opened_up r c evs :
  (fst (exec r c evs)).(opened) = true -> (fst (exec r c evs)).(up) = true.
Proof.
  induction evs as [|ev evs IH] using rev_ind; [destruct r; discriminate|].
  rewrite exec_snoc. unfold extend. destruct (exec r c evs) as [s l]. simpl in IH.
  destruct (step r c s ev) as [s' outs] eqn:S. simpl.
  exact (proj1 (step_opened_up _ _ _ _ _ _ S IH)).
Qed.

Lemma up_from_in u l : up_from u l = true -> u = true \/ In (LOut OStreamUp) l.
Proof.
  revert u; induction l as [|[ev|a] l IH]; intros u H; simpl in *; auto.
  - destruct (IH u H); auto.
  - destruct a; try (destruct (IH u H); auto; fail).
    right. left. reflexivity.
Qed.

(** No role writes before its IBB stream exists. *)
Lemma no_write_before_stream r c evs pre x post :
  snd (exec r c evs) = pre ++ LOut (OWrite x) :: post -> In (LOut OStreamUp) pre.
Proof.
  intro H. apply log_split in H as (evs0 & ev & rest & o1 & o2 & _ & Hs & ->).
  destruct (step r c (fst (exec r c evs0)) ev) as [s' outs] eqn:S. simpl in Hs.
  subst outs.
  destruct (step_opened_up _ _ _ _ _ _ S (exec_opened_up r c evs0)) as [_ Hw].
  specialize (Hw x ltac:(apply in_or_app; simpl; auto)).
  destruct (exec_inv r c evs0) as (_ & Hu & _). rewrite Hu in Hw.
  apply in_or_app. left. destruct (up_from_in _ _ Hw) as [E | E]; [discriminate | exact E].
Qed.

(** The close result is the first one delivered: a later
    [connection_lost] or close answer does not overwrite it. *)
Lemma close_result_first_wins r c evs more e :
  (fst (exec r c evs)).(closed) = Some e -> (fst (exec r c (evs ++ more))).(closed) = Some e.
Proof.
  rewrite exec_app. generalize (exec r c evs). induction more as [|ev more IH]; intros [s l] H;
    simpl in *; auto.
  apply IH. unfold extend. destruct (step r c s ev) as [s' outs] eqn:S. simpl.
  eapply step_closed_persist; eauto.
Qed.

Lemma step_after_end r c s ev s' outs o :
  step r c s ev = (s', outs) -> run_outcome s = Some o ->
  run_outcome s' = Some o /\
  forall a, In a outs -> r = SlixRecv /\ ((exists f sid, a = OAccept f sid) \/ a = OStreamUp).
Proof.
  destruct s as [p a u q h op cl cd e0]; unfold run_outcome; simpl; intros H Hp.
  destruct p; try discriminate; destruct r, ev; unfold_step H; simpl in *; split_matches H;
    inversion H; subst; simpl in *; split; auto; intros a' Ha';
    repeat match type of Ha' with _ \/ _ => destruct Ha' as [Ha'|Ha'] end;
    subst; try contradiction; eauto.
Qed.

(** Once [run] has returned, raised or exited, it does nothing more; only
    slixmpp's auto-accepting plugin still accepts offers. *)
Lemma run_ended_quiet r c evs more o :
  run_outcome (fst (exec r c evs)) = Some o ->
  run_outcome (fst (exec r c (evs ++ more))) = Some o /\
  exists m, snd (exec r c (evs ++ more)) = snd (exec r c evs) ++ m /\
    forall a, In (LOut a) m ->
      r = SlixRecv /\ ((exists f sid, a = OAccept f sid) \/ a = OStreamUp).
Proof.
  rewrite exec_app. generalize (exec r c evs).
  induction more as [|ev more IH]; intros [s l] H; cbn [fold_left fst snd] in *.
  - split; auto. exists []. rewrite app_nil_r. split; [reflexivity | intros _ []].
  - destruct (step r c s ev) as [s' outs] eqn:S.
    replace (extend r c (s, l) ev) with (s', l ++ LIn ev :: map LOut outs)
      by (unfold extend; rewrite S; reflexivity).
    destruct (step_after_end _ _ _ _ _ _ _ S H) as [H' Ha].
    destruct (IH (s', l ++ LIn ev :: map LOut outs) H') as (Ho & m & Hm & Hma).
    split; [exact Ho|]. exists (LIn ev :: map LOut outs ++ m). split.
    + rewrite Hm. simpl. rewrite <- app_assoc. reflexivity.
    + intros a [E | Hin]; [discriminate|].
      apply in_app_or in Hin as [Hin | Hin]; [|auto].
      apply in_map_iff in Hin as (a' & E & Hin). injection E as ->. auto.
Qed.

(** The aioxmpp receiver accepts only an offer from the [-j] JID with the
    [-sid] id, and at most one. *)
Theorem aio_recv_accepts_expected_once c evs :
  (forall f sid, In (LOut (OAccept f sid)) (snd (exec AioRecv c evs)) ->
     f = c.(peer) /\ c.(exp_sid) = Some sid) /\
  (List.length (filter is_accept (actions (snd (exec AioRecv c evs)))) <= 1)%nat.
Proof.
  split.
  - intros f sid H. apply in_split in H as (pre & post & H).
    apply log_split in H as (evs0 & ev & rest & o1 & o2 & _ & Hs & _).
    destruct (step AioRecv c (fst (exec AioRecv c evs0)) ev) as [s' outs] eqn:S.
    simpl in Hs. subst outs. eapply aio_recv_accept_expected; [exact S|].
    apply in_or_app. simpl. auto.
  - apply (at_most_once AioRecv c is_accept (fun s => s.(opened) = true)).
    intros. eapply aio_recv_accept_once; eauto.
Qed.

(** * Further properties of the code *)

(** [str.encode('utf-8')] followed by [bytes.decode('utf-8')] gives the
    text back: the [Done] body is the text the peer wrote. *)
Theorem utf8_roundtrip s b : utf8_encode s = Some b -> utf8_decode b = Some s.
Proof.
  intro H. pose proof (utf8_encode_decode_app s b [] H) as G.
  rewrite app_nil_r in G. rewrite G. simpl. rewrite app_nil_r. reflexivity.
Qed.

(** Strict decoding accepts only the canonical encoding: whatever
    [bytes.decode('utf-8')] accepts, [str.encode('utf-8')] gives back
    byte for byte. *)
Theorem utf8_decode_only_canonical l s :
  utf8_decode l = Some s -> utf8_encode s = Some l.
Proof. apply utf8_decode_encode. Qed.

(** Decoding an accumulator that starts with a decodable prefix decodes
    the rest on its own: whole characters split into blocks decode
    block by block. *)
Theorem utf8_decode_concat a x rest :
  utf8_decode a = Some x ->
  utf8_decode (a ++ rest) = option_map (app x) (utf8_decode rest).
Proof. apply utf8_decode_app. Qed.

(** For a Python [str] (code points in [0, 0x10FFFF]),
    [str.encode('utf-8')] fails exactly when the text holds a surrogate. *)
Theorem utf8_encode_fails_on_surrogates s :
  (forall c, In c s -> 0 <= c <= 1114111) ->
  (utf8_encode s = None <-> exists c, In c s /\ 55296 <= c <= 57343).
Proof.
  intro Hs. rewrite utf8_encode_none. split; intros (c & Hin & Hc); exists c;
    specialize (Hs c Hin); split; auto; lia.
Qed.

(** ** Witnesses *)

Lemma utf8_roundtrip_witness :
  utf8_encode warren_text = Some warren_bytes /\ utf8_decode warren_bytes = Some warren_text.
Proof.
  assert (H : utf8_encode warren_text = Some warren_bytes) by (vm_compute; reflexivity).
  split; [exact H | exact (utf8_roundtrip _ _ H)].
Defined.

Lemma utf8_decode_only_canonical_witness :
  utf8_decode [226; 128; 148] = Some [8212] /\ utf8_encode [8212] = Some [226; 128; 148].
Proof.
  assert (H : utf8_decode [226; 128; 148] = Some [8212]) by reflexivity.
  split; [exact H | exact (utf8_decode_only_canonical _ _ H)].
Defined.

Lemma utf8_decode_concat_witness :
  utf8_decode [226; 128; 148] = Some [8212] /\
  utf8_decode ([226; 128; 148] ++ [111; 107])
    = option_map (app [8212]) (utf8_decode [111; 107]).
Proof.
  assert (H : utf8_decode [226; 128; 148] = Some [8212]) by reflexivity.
  split; [exact H | exact (utf8_decode_concat _ _ [111; 107] H)].
Defined.

Lemma utf8_encode_fails_on_surrogates_witness :
  (forall c, In c [97; 55296] -> 0 <= c <= 1114111) /\
  (utf8_encode [97; 55296] = None <-> exists c, In c [97; 55296] /\ 55296 <= c <= 57343).
Proof.
  assert (H : forall c, In c [97; 55296] -> 0 <= c <= 1114111)
    by (intros c [<- | [<- | []]]; lia).
  split; [exact H | exact (utf8_encode_fails_on_surrogates _ H)].
Defined.

(** A role sends its [Done] message at most once in a run. *)
Theorem done_sent_at_most_once r c evs :
  (List.length (filter is_done (actions (snd (exec r c evs)))) <= 1)%nat.
Proof.
  apply (at_most_once r c is_done (fun s => done_phase s.(pc) = true)).
  intros. eapply step_done_once; eauto.
Qed.

(** A role sends its [Start] message at most once in a run. *)
Theorem start_sent_at_most_once r c evs :
  (List.length (filter is_start (actions (snd (exec r c evs)))) <= 1)%nat.
Proof.
  apply (at_most_once r c is_start (fun s => started_phase s.(pc) = true)).
  intros. eapply step_start_once; eauto.
Qed.

(** A role asks for an IBB stream ([open_session], [open_stream] or
    [expect_session]) at most once in a run. *)
Theorem stream_requested_at_most_once r c evs :
  (List.length (filter is_request (actions (snd (exec r c evs)))) <= 1)%nat.
Proof.
  apply (at_most_once r c is_request (fun s => requested_phase s.(pc) = true)).
  intros. eapply step_request_once; eauto.
Qed.

(** A role writes its payload at most once and closes its stream at most
    once in a run. *)
Theorem write_and_close_at_most_once r c evs :
  (List.length (filter is_write (actions (snd (exec r c evs)))) <= 1)%nat /\
  (List.length (filter is_close (actions (snd (exec r c evs)))) <= 1)%nat.
Proof.
  split.
  - apply (at_most_once r c is_write (fun s => wrote_phase s.(pc) = true)).
    intros. eapply step_write_once; eauto.
  - apply (at_most_once r c is_close (fun s => closed_phase s.(pc) = true)).
    intros. eapply step_close_once; eauto.
Qed.

(** In the slixmpp roles every data block the stream puts on its
    [recv_queue] is taken off at once by the [ibb_stream_data] handler:
    the queue is empty between events. *)
Theorem slix_recv_queue_drained r c evs : (fst (exec r c evs)).(rq) = [].
Proof. destruct (exec_inv r c evs) as (_ & _ & Hq & _). exact Hq. Qed.

(** slixmpp: each [session_start] event runs the scenario body again;
    until [session_end], [sys.exit] or the 30 second timeout of
    [wait_until], [run_test] keeps waiting. *)
Theorem slix_body_per_session_start evs :
  forallb (fun e => negb (ends_wait e)) evs = true ->
  List.length (filter is_run (fst (slix_run_test evs)))
    = List.length (filter is_session_start evs) /\
  snd (slix_run_test evs) = None.
Proof.
  unfold slix_run_test. simpl.
  induction evs as [|e evs IH]; simpl; [auto|]. intro H.
  apply andb_true_iff in H as [He H]. specialize (IH H).
  destruct e as [|o| |]; simpl in *; try discriminate.
  - destruct IH as [IH1 IH2]. split; [f_equal; exact IH1 | exact IH2].
  - destruct o; simpl in *; try discriminate; exact IH.
Qed.

(** ** Witnesses *)

Lemma utf8_ascii_identity_witness :
  (forall b, In b freight_bytes -> 0 <= b < 128) /\
  utf8_decode freight_bytes = Some freight_bytes /\
  utf8_encode freight_bytes = Some freight_bytes.
Proof.
  assert (H : forall b, In b freight_bytes -> 0 <= b < 128).
  { intros b Hb.
    assert (F : forallb (fun b => (0 <=? b) && (b <? 128)) freight_bytes = true)
      by (vm_compute; reflexivity).
    rewrite forallb_forall in F. specialize (F b Hb).
    apply andb_true_iff in F as [F1 F2]. apply Z.leb_le in F1. apply Z.ltb_lt in F2. lia. }
  split; [exact H | exact (utf8_ascii_identity _ H)].
Defined.

Lemma utf8_encode_length_bounds_witness :
  utf8_encode warren_text = Some warren_bytes /\
  (List.length warren_text <= List.length warren_bytes <= 4 * List.length warren_text)%nat.
Proof.
  assert (H : utf8_encode warren_text = Some warren_bytes) by (vm_compute; reflexivity).
  split; [exact H | exact (utf8_encode_length_bounds _ _ H)].
Defined.

Lemma utf8_decode_truncated_witness :
  utf8_decode (ascii_cps "a") = Some (ascii_cps "a") /\
  utf8_encode_cp 8212 = Some [226; 128; 148] /\
  utf8_decode (ascii_cps "a" ++ firstn 2 [226; 128; 148]) = None.
Proof.
  assert (H1 : utf8_decode (ascii_cps "a") = Some (ascii_cps "a")) by reflexivity.
  assert (H2 : utf8_encode_cp 8212 = Some [226; 128; 148]) by reflexivity.
  split; [exact H1 | split; [exact H2|]].
  exact (utf8_decode_truncated _ _ _ _ 2 H1 H2 ltac:(simpl; lia)).
Defined.

Lemma close_result_first_wins_witness :
  (fst (exec AioSend ex_cfg [EvBegin; EvOpened; EvClosed (Some "item-not-found"%string)])).(closed)
    = Some (Some "item-not-found"%string) /\
  (fst (exec AioSend ex_cfg ([EvBegin; EvOpened; EvClosed (Some "item-not-found"%string)]
                              ++ [EvClosed None]))).(closed)
    = Some (Some "item-not-found"%string).
Proof.
  assert (H : (fst (exec AioSend ex_cfg [EvBegin; EvOpened;
                 EvClosed (Some "item-not-found"%string)])).(closed)
              = Some (Some "item-not-found"%string)) by (vm_compute; reflexivity).
  split; [exact H | exact (close_result_first_wins _ _ _ [EvClosed None] _ H)].
Defined.

Lemma run_ended_quiet_witness :
  let evs := [EvOffer "gopher@example.net"%string "abc123"%string; EvBegin; EvEnd; EvWake] in
  let more := [EvOffer "x@example.net"%string "s2"%string] in
  run_outcome (fst (exec SlixRecv ex_cfg evs)) = Some ONormal /\
  (run_outcome (fst (exec SlixRecv ex_cfg (evs ++ more))) = Some ONormal /\
   exists m, snd (exec SlixRecv ex_cfg (evs ++ more)) = snd (exec SlixRecv ex_cfg evs) ++ m /\
   forall a, In (LOut a) m ->
     SlixRecv = SlixRecv /\ ((exists f sid, a = OAccept f sid) \/ a = OStreamUp)).
Proof.
  intros evs more.
  assert (H : run_outcome (fst (exec SlixRecv ex_cfg evs)) = Some ONormal)
    by (vm_compute; reflexivity).
  split; [exact H | exact (run_ended_quiet _ _ _ more _ H)].
Defined.

Lemma no_write_before_stream_witness :
  snd (exec AioRecv ex_cfg happy_evs)
    = firstn 8 (snd (exec AioRecv ex_cfg happy_evs))
      ++ LOut (OWrite freight_bytes) :: skipn 9 (snd (exec AioRecv ex_cfg happy_evs)) /\
  In (LOut OStreamUp) (firstn 8 (snd (exec AioRecv ex_cfg happy_evs))).
Proof.
  assert (H : snd (exec AioRecv ex_cfg happy_evs)
    = firstn 8 (snd (exec AioRecv ex_cfg happy_evs))
      ++ LOut (OWrite freight_bytes) :: skipn 9 (snd (exec AioRecv ex_cfg happy_evs)))
    by (vm_compute; reflexivity).
  split; [exact H | exact (no_write_before_stream _ _ _ _ _ _ H)].
Defined.

Lemma slix_body_per_session_start_witness :
  forallb (fun e => negb (ends_wait e))
    [DSessionStart; DBodyDone (ORaised EUnicodeDecode); DSessionStart] = true /\
  List.length (filter is_run (fst (slix_run_test
    [DSessionStart; DBodyDone (ORaised EUnicodeDecode); DSessionStart])))
    = List.length (filter is_session_start
        [DSessionStart; DBodyDone (ORaised EUnicodeDecode); DSessionStart]) /\
  snd (slix_run_test [DSessionStart; DBodyDone (ORaised EUnicodeDecode); DSessionStart])
    = None.
Proof.
  assert (H : forallb (fun e => negb (ends_wait e))
    [DSessionStart; DBodyDone (ORaised EUnicodeDecode); DSessionStart] = true)
    by reflexivity.
  split; [exact H | exact (slix_body_per_session_start _ H)].
Defined.
